(** * stdnet: query compilation, query sets, relation managers and the
      generic backend interface

    A shallow embedding of [stdnet/orm/query.py], of the generic parts of
    [stdnet/backends/base.py] and of the search engine driver of
    [stdnet/orm/search.py].  Python objects become records, [None]-able
    attributes become [option]s, exceptions become the [Raise] branch of
    [result], and calls to the backend cursor are recorded in a call log so
    that statements of the form "no backend call is made" can be expressed. *)

From Stdlib Require Import ZArith QArith Ascii String List Bool Lia.
From stdpp Require Import base option list strings gmap.

Open Scope string_scope.
Open Scope list_scope.

(** ** Exceptions and results *)

Inductive exception : Type :=
| QuerySetError (msg : string)
| NotImplementedError (msg : string)
| FieldValueError (msg : string)
| TypeError (msg : string)
| AttributeError (msg : string)
| KeyError (msg : string)
| IndexError (msg : string)
| ValueError (msg : string)
| ObjectNotFund.

Inductive result (A : Type) : Type :=
| Ok (a : A)
| Raise (e : exception).
Arguments Ok {A} a.
Arguments Raise {A} e.

Definition is_ok {A} (r : result A) : bool :=
  match r with Ok _ => true | Raise _ => false end.

(** ** Python dictionaries
    A dictionary is the list of its items in iteration order, keys distinct.
    [d[k] = v] replaces the value of a key already present and adds a new key
    otherwise.  The language does not fix the order in which a dictionary is
    iterated: what is proved about a loop over [items()] is proved for an
    arbitrary list of items. *)

Definition dict (A : Type) : Type := list (string * A).

Fixpoint dict_get {A} (k : string) (d : dict A) : option A :=
  match d with
  | [] => None
  | (k', v) :: d' => if String.eqb k k' then Some v else dict_get k d'
  end.

Fixpoint dict_set {A} (k : string) (v : A) (d : dict A) : dict A :=
  match d with
  | [] => [(k, v)]
  | (k', v') :: d' =>
      if String.eqb k k' then (k', v) :: d' else (k', v') :: dict_set k v d'
  end.

(** [d.update(other)]: every item of [other], in order, is stored in [d]. *)
Definition dict_update {A} (d other : dict A) : dict A :=
  fold_left (fun acc kv => dict_set (fst kv) (snd kv) acc) other d.

(** Truth value of a possibly-[None] dictionary: [None] and [{}] are false. *)
Definition truthy_dict {A} (d : option (dict A)) : bool :=
  match d with
  | None | Some [] => false
  | Some (_ :: _) => true
  end.

(** ** [str.split('__')]
    Leftmost, non-overlapping occurrences of the separator cut the string. *)

Fixpoint split_dunder (s : string) : list string :=
  match s with
  | EmptyString => [EmptyString]
  | String "_"%char (String "_"%char rest) => EmptyString :: split_dunder rest
  | String c rest =>
      match split_dunder rest with
      | h :: t => String c h :: t
      | [] => [String c EmptyString]
      end
  end.

(** * orm/query.py *)

Module Query.
Section Query.

(** [V] is the universe of Python values that occur as lookup values, ids and
    stored field values. *)
Context {V : Type}.

(** A field descriptor, as far as query compilation reads it. *)
Record Field : Type := {
  unique : bool;
  index : bool;
  serialize : V -> V;
  hash : V -> V
}.

(** Stored field data of one instance and the instance made from it
    ([meta.make(id, data)]). *)
Record Instance : Type := make {
  inst_id : V;
  inst_data : dict V
}.

(** The model's [_meta]: [dfields] and [fields] are both read with [.get]. *)
Record Meta : Type := {
  modelname : string;
  dfields : gmap string Field;
  fields : gmap string Field
}.

(** What [aggregate] returns as its second component: the mapping of compiled
    clauses, or the [(name, value)] tuple of a unique short-circuit. *)
Inductive clauses : Type :=
| Mapping (d : dict V)
| Pair (name : string) (value : V).

(** [svset] wraps the single object of a unique lookup; the general query
    handle is either the string ['all'] or a collection of ids. *)
Inductive queryhandle : Type :=
| svset (res : Instance)
| QAll
| QIds (l : list V).

(** [len(self.qset)]: [svset.__len__] is the constant 1, ['all'] is a string
    of three characters, a collection of ids has its number of ids. *)
Definition len (q : queryhandle) : Z :=
  match q with
  | svset _ => 1
  | QAll => Z.of_nat (String.length "all")
  | QIds l => Z.of_nat (length l)
  end.

Record QuerySet : Type := {
  _meta : Meta;
  fargs : option (dict V);
  eargs : option (dict V);
  filter_sets : option (list string);
  qset : option queryhandle;
  _seq : option (list Instance)
}.

(** [QuerySet.__init__] *)
Definition init (meta : Meta) (fargs eargs : option (dict V))
    (filter_sets : option (list string)) : QuerySet :=
  {| _meta := meta; fargs := fargs; eargs := eargs;
     filter_sets := filter_sets; qset := None; _seq := None |}.

Definition set_qset (self : QuerySet) (q : queryhandle) : QuerySet :=
  {| _meta := _meta self; fargs := fargs self; eargs := eargs self;
     filter_sets := filter_sets self; qset := Some q; _seq := _seq self |}.

Definition set_seq (self : QuerySet) (l : list Instance) : QuerySet :=
  {| _meta := _meta self; fargs := fargs self; eargs := eargs self;
     filter_sets := filter_sets self; qset := qset self; _seq := Some l |}.

(** *** QuerySet.filter and QuerySet.exclude
    [kwargs] is the fresh dictionary Python builds for the call;
    [kwargs.update(None)] raises [TypeError].  Neither method assigns an
    attribute of [self] or writes to a dictionary [self] holds, so the
    receiver is a plain argument here and only the new query set is
    returned. *)

Definition none_not_iterable : exception :=
  TypeError "'NoneType' object is not iterable".

Definition update_kwargs (kwargs : dict V) (other : option (dict V))
    : result (dict V) :=
  match other with
  | None => Raise none_not_iterable
  | Some d => Ok (dict_update kwargs d)
  end.

Definition filter (self : QuerySet) (kwargs : dict V) : result QuerySet :=
  match update_kwargs kwargs (fargs self) with
  | Raise e => Raise e
  | Ok kwargs' => Ok (init (_meta self) (Some kwargs') (eargs self) None)
  end.

Definition exclude (self : QuerySet) (kwargs : dict V) : result QuerySet :=
  match update_kwargs kwargs (eargs self) with
  | Raise e => Raise e
  | Ok kwargs' => Ok (init (_meta self) (fargs self) (Some kwargs') None)
  end.

(** *** QuerySet.aggregate *)

Definition field_not_defined (name : string) : exception :=
  QuerySetError ("Could not filter. Field " ++ name ++ " not defined.").

Definition nested_lookup : exception :=
  NotImplementedError "Nested lookup is not yet available".

Definition not_an_index (name : string) : exception :=
  QuerySetError ("Field " ++ name ++ " is not an index. Cannot query.").

(** The first half of the loop body: the shape of the lookup name selects the
    field, the converted value and the new value of the variable [unique]
    (which the [__in] branch leaves as it was). *)
Definition resolve (meta : Meta) (name : string) (value : V) (unique0 : bool)
    : result (Field * V * bool) :=
  let names := split_dunder name in
  let N := length names in
  if Nat.eqb N 1 then
    match dfields meta !! name with
    | None => Raise (field_not_defined name)
    | Some field => Ok (field, serialize field value, unique field)
    end
  else if Nat.eqb N 2 && String.eqb (nth 1 names "") "in" then
    match fields meta !! nth 0 names "" with
    | None => Raise (field_not_defined (nth 0 names ""))
    | Some field => Ok (field, hash field value, unique0)
    end
  else Raise nested_lookup.

Fixpoint aggregate_loop (meta : Meta) (filter : bool)
    (items : list (string * V)) (unique0 : bool) (res : dict V)
    : result (bool * clauses) :=
  match items with
  | [] => Ok (unique0, Mapping res)
  | (name, value) :: rest =>
      match resolve meta name value unique0 with
      | Raise e => Raise e
      | Ok (field, value', unique1) =>
          if unique1 then
            let res1 := dict_set name value' res in
            if filter then Ok (true, Pair name value')
            else aggregate_loop meta filter rest unique1
                   (dict_set name value' res1)
          else if index field then
            aggregate_loop meta filter rest unique1 (dict_set name value' res)
          else Raise (not_an_index name)
      end
  end.

(** A predicate that the loop passes over without stopping: it resolves, is
    not on a unique field, and its field is an index. *)
Definition compiles_plain (meta : Meta) (kv : string * V) : bool :=
  match resolve meta (fst kv) (snd kv) false with
  | Ok (field, _, false) => index field
  | _ => false
  end.

Definition none_has_no_items : exception :=
  AttributeError "'NoneType' object has no attribute 'items'".

Definition aggregate (self : QuerySet) (kwargs : option (dict V))
    (filter : bool) : result (bool * clauses) :=
  match kwargs with
  | None => Raise none_has_no_items
  | Some d => aggregate_loop (_meta self) filter d false []
  end.

(** *** The backend cursor
    The cursor is the backend the model is registered with.  Query sets only
    read from it: the state [S] of the database is not changed by any call
    below, and every call is recorded in the call log. *)

Class Cursor (S : Type) : Type := {
  (** [cursor.get_object(meta, name, value)] *)
  get_object : Meta -> string -> V -> S -> result Instance;
  (** [cursor.query(meta, fargs, eargs, filter_sets=...)] *)
  query : Meta -> clauses -> option clauses -> option (list string) -> S
          -> result queryhandle;
  (** [cursor.hash(meta.basekey()).get(id)] *)
  hash_get : Meta -> V -> S -> option (dict V);
  (** [meta.table().items()], [meta.table().mget(ids)], [meta.table().size()] *)
  table_items : Meta -> S -> list (V * dict V);
  table_mget : Meta -> list V -> S -> list (dict V);
  table_size : Meta -> S -> Z
}.

Inductive call : Type :=
| CallGetObject (name : string) (value : V)
| CallQuery (fargs : clauses) (eargs : option clauses)
    (filter_sets : option (list string))
| CallHashGet (id : V)
| CallTableItems
| CallTableMget (ids : list V)
| CallTableSize.

(** Computations that may raise and that log their backend calls. *)
Definition M (A : Type) : Type := list call -> result A * list call.

Definition ret {A} (a : A) : M A := fun log => (Ok a, log).
Definition raise {A} (e : exception) : M A := fun log => (Raise e, log).
Definition bind {A B} (m : M A) (k : A -> M B) : M B :=
  fun log =>
    match m log with
    | (Ok a, log') => k a log'
    | (Raise e, log') => (Raise e, log')
    end.
Definition lift {A} (r : result A) : M A := fun log => (r, log).
Definition tell (c : call) : M unit := fun log => (Ok tt, log ++ [c]).

#[local] Instance M_bind : MBind M := fun A B k m => bind m k.
#[local] Instance M_ret : MRet M := fun A a => ret a.

Context {S : Type} {cursor : Cursor S}.
Variable db : S.

(** *** QuerySet.buildquery
    Returns the receiver after the call ([self.qset] is assigned in place). *)

Definition key_error_0 : exception := KeyError "0".

Definition buildquery (self : QuerySet) : M QuerySet :=
  match qset self with
  | Some _ => ret self
  | None =>
      let meta := _meta self in
      '(unique, fa) ← lift (aggregate self (fargs self) true);
      if (unique : bool) then
        match fa with
        | Pair name value =>
            tell (CallGetObject name value) ;;
            r ← lift (get_object meta name value db);
            ret (set_qset self (svset r))
        | Mapping _ => raise key_error_0
        end
      else
        ea ← (if truthy_dict (eargs self)
              then '(_, ea) ← lift (aggregate self (eargs self) false);
                   ret (Some ea)
              else ret None);
        tell (CallQuery fa ea (filter_sets self)) ;;
        q ← lift (query meta fa ea (filter_sets self) db);
        ret (set_qset self q)
  end.

(** *** QuerySet.count
    [buildquery] always leaves a handle in [self.qset]; the [None] branches
    below stand for the [TypeError] Python raises on [None] and are never
    taken. *)

Definition none_has_no_len : exception :=
  TypeError "object of type 'NoneType' has no len()".

Definition count (self : QuerySet) : M (QuerySet * Z) :=
  self ← buildquery self;
  match qset self with
  | Some QAll =>
      tell CallTableSize ;; ret (self, table_size (_meta self) db)
  | Some q => ret (self, len q)
  | None => raise none_has_no_len
  end.

(** *** QuerySet.get (the second definition, without an index argument)
    [self.qset.result] exists on an [svset] only; for any other handle the
    bare [except] takes the first id and reads the stored data of that id. *)

Inductive got : Type :=
| GotInstance (i : Instance)
| GotStored (d : option (dict V)).

Definition non_unique : exception :=
  QuerySetError "Get query yielded non unique results".

Definition index_out_of_range : exception :=
  IndexError "tuple index out of range".

Definition get (self : QuerySet) : M (QuerySet * got) :=
  self ← buildquery self;
  match qset self with
  | None => raise none_has_no_len
  | Some q =>
      if (len q =? 1)%Z then
        match q with
        | svset r => ret (self, GotInstance r)
        | QIds (id :: _) =>
            tell (CallHashGet id) ;;
            ret (self, GotStored (hash_get (_meta self) id db))
        | QIds [] | QAll => raise index_out_of_range
        end
      else raise non_unique
  end.

(** *** QuerySet.items, QuerySet.__iter__ *)

Fixpoint izip {A B} (l : list A) (l' : list B) : list (A * B) :=
  match l, l' with
  | a :: l, b :: l' => (a, b) :: izip l l'
  | _, _ => []
  end.

Definition model (p : V * dict V) : Instance := make (fst p) (snd p).

Definition items (self : QuerySet) : M (QuerySet * list Instance) :=
  self ← buildquery self;
  match qset self with
  | None => raise none_has_no_len
  | Some (svset r) => ret (self, [r])
  | Some QAll =>
      tell CallTableItems ;;
      ret (self, map model (table_items (_meta self) db))
  | Some (QIds ids) =>
      tell (CallTableMget ids) ;;
      ret (self, map model (izip ids (table_mget (_meta self) ids db)))
  end.

(** [QuerySet.__iter__]: the cache [_seq] is filled on first use. *)
Definition iter (self : QuerySet) : M (QuerySet * list Instance) :=
  match _seq self with
  | None =>
      '(self, l) ← items self;
      ret (set_seq self l, l)
  | Some l => ret (self, l)
  end.

(** *** Manager *)

Definition Manager_filter (meta : Meta) (kwargs : dict V) : QuerySet :=
  init meta (Some kwargs) None None.

Definition Manager_exclude (meta : Meta) (kwargs : dict V) : QuerySet :=
  init meta None (Some kwargs) None.

Definition Manager_all (meta : Meta) : QuerySet := Manager_filter meta [].

Definition Manager_get (meta : Meta) (kwargs : dict V)
    : M (QuerySet * got) :=
  get (Manager_filter meta kwargs).

(** *** M2MRelatedManager
    Model instances are heap objects; [value is self.instance] compares their
    addresses.  The object graph tells which class an object is an instance
    of and which related manager [getattr(value, to_name)] finds.  A link set
    (the structure [st] of a manager) is the set of objects added to it. *)

Definition oid : Type := positive.

Record M2MRelatedManager : Type := {
  instance : oid;
  to : string;
  st : string;
  to_name : string
}.

Record ObjectGraph : Type := {
  isinstance : oid -> string -> bool;
  getattr : oid -> string -> option M2MRelatedManager;
  str : oid -> string
}.

Definition linksets : Type := gmap string (gset oid).

Definition members (links : linksets) (st : string) : gset oid :=
  default ∅ (links !! st).

(** [self.st.add(value)] *)
Definition _add (self : M2MRelatedManager) (value : oid) (links : linksets)
    : linksets :=
  <[st self := {[value]} ∪ members links (st self)]> links.

Definition not_an_instance (g : ObjectGraph) (value : oid) (to : string)
    : exception :=
  FieldValueError (str g value ++ " is not an instance of " ++ to).

Definition no_attribute (name : string) : exception :=
  AttributeError ("object has no attribute '" ++ name ++ "'").

Definition add (g : ObjectGraph) (self : M2MRelatedManager) (value : oid)
    (links : linksets) : result unit * linksets :=
  if negb (isinstance g value (to self)) then
    (Raise (not_an_instance g value (to self)), links)
  else if Pos.eqb value (instance self) then (Ok tt, links)
  else
    match getattr g value (to_name self) with
    | None => (Raise (no_attribute (to_name self)), links)
    | Some related =>
        let links := _add self value links in
        let links := _add related (instance self) links in
        (Ok tt, links)
    end.

End Query.
End Query.

(** * backends/base.py *)

Module Base.
Section BackendDataServer.

(** [V]: ids; [Obj]: model instances; [Txn]: transactions; [S]: the state of
    the backend (database and open transactions). *)
Context {V Obj Txn S : Type}.

(** What [save_object] uses of the instance it is given. *)
Class StdModel : Type := {
  (** [obj.id] and its truth value *)
  id : Obj -> V;
  truthy : V -> bool;
  (** [obj.is_valid()] and [json.dumps(obj.errors)] *)
  is_valid : Obj -> bool;
  errors : Obj -> string;
  (** [obj.id = obj._meta.pk.serialize(obj.id)] *)
  serialize_pk : Obj -> Obj;
  (** [obj.local_transaction()] *)
  local_transaction : Obj -> S -> Txn * S;
  (** [obj.__class__.objects.filter(id = obj.id).load_only( *obj.toload)],
      evaluated: the previously stored objects with that id *)
  previous : Obj -> S -> result (list Obj) * S
}.

(** [self.keys()] returns either a sized collection or a bare iterator. *)
Inductive keys_result : Type :=
| Sized (l : list string)
| Iterator (l : list string).

(** The methods a concrete backend overrides. *)
Class Backend : Type := {
  keys : S -> keys_result;
  _remove_indexes : Obj -> Txn -> S -> result unit * S;
  _save_object : Obj -> Txn -> S -> result Obj * S;
  commit : Txn -> S -> result unit * S
}.

Context {model : StdModel} {backend : Backend}.

(** *** isempty *)

Definition list_of (k : keys_result) : list string :=
  match k with Sized l | Iterator l => l end.

Definition isempty (s : S) : Z :=
  let keys := keys s in
  let keys := match keys with
              | Sized l => l
              | Iterator l => l   (* keys = list(keys) *)
              end in
  Z.of_nat (length keys).

(** Truth value of a Python integer. *)
Definition bool_of_int (n : Z) : bool := negb (n =? 0)%Z.

(** What the docstring of [isempty] says it returns: [True] if the database
    has no keys. *)
Definition isempty_docstring (s : S) : bool :=
  match list_of (keys s) with [] => true | _ :: _ => false end.

(** *** save_object
    Every step that reaches the backend or the transaction is logged. *)

Inductive operation : Type :=
| OpLocalTransaction
| OpIsValid
| OpPreviousRead
| OpRemoveIndexes
| OpSaveObject
| OpCommit.

(** The operations that run on the backend state: every step but the
    validation, which only reads the instance. *)
Definition backend_operation (o : operation) : bool :=
  match o with
  | OpLocalTransaction | OpPreviousRead | OpRemoveIndexes | OpSaveObject
  | OpCommit => true
  | OpIsValid => false
  end.

(** The four operations on stored objects: the read of the previous state,
    the index removal, the object write and the commit. *)
Definition object_operation (o : operation) : bool :=
  match o with
  | OpPreviousRead | OpRemoveIndexes | OpSaveObject | OpCommit => true
  | OpLocalTransaction | OpIsValid => false
  end.

Definition world : Type := S * list operation.
Definition M (A : Type) : Type := world -> result A * world.

Definition ret {A} (a : A) : M A := fun w => (Ok a, w).
Definition raise {A} (e : exception) : M A := fun w => (Raise e, w).
Definition bind {A B} (m : M A) (k : A -> M B) : M B :=
  fun w =>
    match m w with
    | (Ok a, w') => k a w'
    | (Raise e, w') => (Raise e, w')
    end.
Definition tell (o : operation) : M unit :=
  fun w => (Ok tt, (fst w, snd w ++ [o])).
(** A call that may raise and may change the backend state. *)
Definition run {A} (f : S -> result A * S) : M A :=
  fun w => let (r, s) := f (fst w) in (r, (s, snd w)).
Definition run_total {A} (f : S -> A * S) : M A :=
  fun w => let (a, s) := f (fst w) in (Ok a, (s, snd w)).

#[local] Instance M_bind : MBind M := fun A B k m => bind m k.
#[local] Instance M_ret : MRet M := fun A a => ret a.

Definition save_object (obj : Obj) (transaction : option Txn) : M Obj :=
  '(commit_, transaction) ←
     match transaction with
     | None =>
         tell OpLocalTransaction ;;
         t ← run_total (local_transaction obj);
         ret (true, t)
     | Some t => ret (false, t)
     end;
  tell OpIsValid ;;
  if negb (is_valid obj) then raise (FieldValueError (errors obj))
  else
    obj ←
      (if truthy (id obj) then
         tell OpPreviousRead ;;
         pobj ← run (previous obj);
         match pobj with
         | p0 :: _ =>
             tell OpRemoveIndexes ;;
             run (_remove_indexes p0 transaction) ;;
             ret obj
         | [] => ret obj
         end
       else ret (serialize_pk obj));
    tell OpSaveObject ;;
    obj ← run (_save_object obj transaction);
    (if (commit_ : bool) then
       tell OpCommit ;; run (commit transaction)
     else ret tt) ;;
    ret obj.

End BackendDataServer.
End Base.

(** * An in-memory backend and the example models *)

Module Memory.

(** Python values of the examples: integers, (finite) floats as the rationals
    they denote, strings. *)
Inductive pyvalue : Type :=
| PInt (n : Z)
| PFloat (q : Q)
| PStr (s : string).

#[global] Instance Q_eq_dec : EqDecision Q.
Proof. solve_decision. Defined.

#[global] Instance pyvalue_eq_dec : EqDecision pyvalue.
Proof. solve_decision. Defined.

Section Memory.
Context {V : Type} `{EqDecision V}.

Fixpoint assoc {K A} `{EqDecision K} (k : K) (l : list (K * A)) : option A :=
  match l with
  | [] => None
  | (k', a) :: l' => if decide (k = k') then Some a else assoc k l'
  end.

(** The contents of the database for one model: the hash table of the
    instances, the index entries [(field, value) -> ids], and the
    named sets a relation manager may restrict a query to. *)
Record database : Type := {
  objects : list (V * dict V);
  indexes : list ((string * V) * list V);
  sets : list (string * list V)
}.

Definition index_set (db : database) (clause : string * V) : list V :=
  default [] (assoc clause (indexes db)).

Definition named_set (db : database) (name : string) : list V :=
  default [] (assoc name (sets db)).

Definition clause_list (c : @Query.clauses V) : list (string * V) :=
  match c with
  | Query.Mapping d => d
  | Query.Pair name value => [(name, value)]
  end.

Definition inter (l l' : list V) : list V :=
  base.filter (fun x => x ∈ l') l.

Definition minus (l l' : list V) : list V :=
  base.filter (fun x => x ∉ l') l.

(** Modelled from the spec: the backend cursor ([get_object], [query] and
    the model's hash table), whose implementations are not part of the
    sources at hand.  A unique lookup fetches the single instance by its
    unique index and fails with [ObjectNotFund], the exception
    [Manager.get_or_create] expects, when there is none; the general query
    intersects the index sets of the positive clauses, subtracts those of the
    negated clauses and intersects with the extra restriction sets; without
    positive clauses the result is the ['all'] handle. *)
Definition mem_get_object (meta : @Query.Meta V) (name : string) (value : V)
    (db : database) : result (@Query.Instance V) :=
  let id := if String.eqb name "id" then Some value
            else head (index_set db (name, value)) in
  match id with
  | None => Raise ObjectNotFund
  | Some id =>
      match assoc id (objects db) with
      | None => Raise ObjectNotFund
      | Some data => Ok (Query.make id data)
      end
  end.

(** Modelled from the spec: the query plan of the backend, whose
    implementation is not part of the sources at hand (see above). *)
Definition mem_query (meta : @Query.Meta V) (fargs : @Query.clauses V)
    (eargs : option (@Query.clauses V)) (filter_sets : option (list string))
    (db : database) : result (@Query.queryhandle V) :=
  match clause_list fargs with
  | [] => Ok Query.QAll
  | c :: cs =>
      let positive := foldl (fun acc c => inter acc (index_set db c))
                        (index_set db c) cs in
      let negative := concat (map (index_set db)
                        (from_option clause_list [] eargs)) in
      let restricted := foldl (fun acc s => inter acc (named_set db s))
                          positive (default [] filter_sets) in
      Ok (Query.QIds (minus restricted negative))
  end.

#[global] Instance mem_cursor : Query.Cursor database := {|
  Query.get_object := mem_get_object;
  Query.query := mem_query;
  Query.hash_get := fun meta id db => assoc id (objects db);
  Query.table_items := fun meta db => objects db;
  Query.table_mget := fun meta ids db =>
    map (fun id => default [] (assoc id (objects db))) ids;
  Query.table_size := fun meta db => Z.of_nat (length (objects db))
|}.

End Memory.

(** ** The example model [NumericData] with five committed instances *)

Definition plain : pyvalue -> pyvalue := fun v => v.

Definition id_field : @Query.Field pyvalue :=
  {| Query.unique := true; Query.index := true;
     Query.serialize := plain; Query.hash := plain |}.

Definition indexed_field : @Query.Field pyvalue :=
  {| Query.unique := false; Query.index := true;
     Query.serialize := plain; Query.hash := plain |}.

Definition plain_field : @Query.Field pyvalue :=
  {| Query.unique := false; Query.index := false;
     Query.serialize := plain; Query.hash := plain |}.

Definition numeric_fields : gmap string (@Query.Field pyvalue) :=
  <["id" := id_field]> (<["pv" := indexed_field]> (<["note" := plain_field]> ∅)).

Definition NumericData : @Query.Meta pyvalue :=
  {| Query.modelname := "NumericData";
     Query.dfields := numeric_fields;
     Query.fields := numeric_fields |}.

Definition pv (z : Z) : pyvalue := PFloat (inject_Z z).

Definition numeric_db : @database pyvalue :=
  {| objects := [ (PInt 1, [("pv", pv (-3))]); (PInt 2, [("pv", pv (-1))]);
                  (PInt 3, [("pv", pv 0)]); (PInt 4, [("pv", pv 2)]);
                  (PInt 5, [("pv", pv 4)]) ];
     indexes := [ (("pv", pv (-3)), [PInt 1]); (("pv", pv (-1)), [PInt 2]);
                  (("pv", pv 0), [PInt 3]); (("pv", pv 2), [PInt 4]);
                  (("pv", pv 4), [PInt 5]) ];
     sets := [] |}.

Definition empty_db : @database pyvalue :=
  {| objects := []; indexes := []; sets := [] |}.

Definition single_db : @database pyvalue :=
  {| objects := [ (PInt 1, [("pv", pv 2)]) ];
     indexes := [ (("pv", pv 2), [PInt 1]) ];
     sets := [] |}.

(** The [pv] values of a list of instances. *)
Definition pvs (l : list (@Query.Instance pyvalue)) : list (option pyvalue) :=
  map (fun i => dict_get "pv" (Query.inst_data i)) l.

End Memory.

(** * A small concrete backend for [save_object] and a concrete object graph
      for the many-to-many manager *)

Module Fixtures.

Record item : Type := {
  item_id : Z;
  item_ok : bool
}.

(** The database is the list of saved items; transactions are numbered. *)
#[global] Instance item_model : @Base.StdModel Z item nat (list item) := {|
  Base.id := item_id;
  Base.truthy := fun z => negb (z =? 0)%Z;
  Base.is_valid := item_ok;
  Base.errors := fun _ => "{}";
  Base.serialize_pk := fun o => {| item_id := 1; item_ok := item_ok o |};
  Base.local_transaction := fun _ s => (0%nat, s);
  Base.previous := fun o s =>
    (Ok (base.filter (fun i => item_id i = item_id o) s), s)
|}.

#[global] Instance item_backend : @Base.Backend item nat (list item) := {|
  Base.keys := fun s => Base.Iterator (map (fun _ => "item") s);
  Base._remove_indexes := fun _ _ s => (Ok tt, s);
  Base._save_object := fun o _ s => (Ok o, o :: s);
  Base.commit := fun _ s => (Ok tt, s)
|}.

(** The same items on a backend that counts the transactions it has
    opened: the state is the list of saved items and that count. *)
#[global] Instance counting_model
    : @Base.StdModel Z item nat (list item * nat) := {|
  Base.id := item_id;
  Base.truthy := fun z => negb (z =? 0)%Z;
  Base.is_valid := item_ok;
  Base.errors := fun _ => "{}";
  Base.serialize_pk := fun o => {| item_id := 1; item_ok := item_ok o |};
  Base.local_transaction := fun _ s => (snd s, (fst s, Datatypes.S (snd s)));
  Base.previous := fun o s =>
    (Ok (base.filter (fun i => item_id i = item_id o) (fst s)), s)
|}.

#[global] Instance counting_backend
    : @Base.Backend item nat (list item * nat) := {|
  Base.keys := fun s => Base.Iterator (map (fun _ => "item") (fst s));
  Base._remove_indexes := fun _ _ s => (Ok tt, s);
  Base._save_object := fun o _ s => (Ok o, (o :: fst s, snd s));
  Base.commit := fun _ s => (Ok tt, s)
|}.

(** Two groups, each with a [members] manager on its own link set. *)
Definition members_of (o : Query.oid) : Query.M2MRelatedManager :=
  {| Query.instance := o;
     Query.to := "Group";
     Query.st := if Pos.eqb o 1%positive then "group:1:members"
                 else "group:2:members";
     Query.to_name := "members" |}.

Definition groups : Query.ObjectGraph :=
  {| Query.isinstance := fun o c =>
       (Pos.eqb o 1%positive || Pos.eqb o 2%positive) && String.eqb c "Group";
     Query.getattr := fun o name =>
       if String.eqb name "members" then Some (members_of o) else None;
     Query.str := fun o => "object" |}.

End Fixtures.

(** * orm/query.py, continued: the shapes of lookup names *)

(** The two shapes of lookup name [aggregate] accepts: a single part, or two
    parts the second of which is ['in']. *)
Definition supported_shape (name : string) : bool :=
  let names := split_dunder name in
  Nat.eqb (length names) 1
  || (Nat.eqb (length names) 2 && String.eqb (nth 1 names "") "in").

(** * orm/query.py, continued: sequence access, deletion, managers *)

Module Results.
Section Results.
Context {V DB : Type} {cursor : @Query.Cursor V DB}.

(** Truth value of the result cache: [None] and the empty list are false. *)
Definition truthy_seq {A} (l : option (list A)) : bool :=
  match l with
  | Some (_ :: _) => true
  | Some [] | None => false
  end.

(** [len(self)] on a negative [__len__]. *)
Definition negative_length : exception :=
  ValueError "__len__() should return >= 0".

(** The length hint [list(self)] asks for once it holds the iterator:
    [len(self)], that is [__len__] and so [count].  A negative length is a
    [ValueError]; a [TypeError] or an [AttributeError] raised on the way is
    dropped and the list is built without a hint, the handle staying as it
    was; any other exception propagates.  The number only sizes the new
    list. *)
Definition length_hint (db : DB) (self : @Query.QuerySet V)
    : Query.M Query.QuerySet :=
  fun log =>
    match Query.count db self log with
    | (Ok (self', n), log') =>
        if (n <? 0)%Z then (Raise negative_length, log') else (Ok self', log')
    | (Raise (TypeError _), log') | (Raise (AttributeError _), log') =>
        (Ok self, log')
    | (Raise e, log') => (Raise e, log')
    end.

(** [list(self)]: the iterator of [__iter__] first, then the length hint,
    then the elements. *)
Definition list_self (db : DB) (self : @Query.QuerySet V)
    : Query.M (Query.QuerySet * list Query.Instance) :=
  Query.bind (Query.iter db self)
    (fun r => Query.bind (length_hint db (fst r))
                (fun self' => Query.ret (self', snd r))).

(** [QuerySet._unwind]: [if not self._seq: self._seq = list(self)]. *)
Definition _unwind (db : DB) (self : @Query.QuerySet V)
    : Query.M (Query.QuerySet * list Query.Instance) :=
  if truthy_seq (Query._seq self) then
    Query.ret (self, default [] (Query._seq self))
  else
    Query.bind (list_self db self)
      (fun r => Query.ret (Query.set_seq (fst r) (snd r), snd r)).

(** [l[index]] on a Python list: a negative index counts from the end. *)
Definition list_index_error : exception :=
  IndexError "list index out of range".

Definition list_index {A} (l : list A) (index : Z) : result A :=
  let n := Z.of_nat (length l) in
  let j := if (index <? 0)%Z then (index + n)%Z else index in
  if (j <? 0)%Z || (n <=? j)%Z then Raise list_index_error
  else match l !! Z.to_nat j with
       | Some a => Ok a
       | None => Raise list_index_error
       end.

(** [QuerySet.__getitem__], the first definition of [get]:
    [self._unwind()[index]]. *)
Definition getitem (db : DB) (self : @Query.QuerySet V) (index : Z)
    : Query.M (Query.QuerySet * Query.Instance) :=
  Query.bind (_unwind db self)
    (fun r => Query.bind (Query.lift (list_index (snd r) index))
                (fun a => Query.ret (fst r, a))).

(** The calls [buildquery] adds to the log: none, one object fetch, or one
    query. *)
Definition build_calls (ops : list (@Query.call V)) : Prop :=
  ops = [] ∨ (∃ name value, ops = [Query.CallGetObject name value]) ∨
  (∃ F E sets, ops = [Query.CallQuery F E sets]).

(** The backend calls that read stored instance data: the object fetch of a
    unique lookup, the table reads of [items] and the hash read of [get]. *)
Definition fetches_data (c : @Query.call V) : bool :=
  match c with
  | Query.CallGetObject _ _ | Query.CallTableItems | Query.CallTableMget _
  | Query.CallHashGet _ => true
  | Query.CallQuery _ _ _ | Query.CallTableSize => false
  end.

(** [QuerySet.__len__] is [count]. *)
Definition __len__ (db : DB) (self : @Query.QuerySet V)
    : Query.M (Query.QuerySet * Z) :=
  Query.count db self.

(** [el.delete(dlist)] on one instance: it changes the database and returns
    the number of objects removed, or raises. *)
Variable instance_delete : @Query.Instance V -> DB -> result Z * DB.

(** The loop of [QuerySet.delete]: [T += el.delete(dlist)] for each element;
    an exception leaves the deletions made so far in place. *)
Fixpoint delete_loop (els : list (@Query.Instance V)) (T : Z) (db : DB)
    : result Z * DB :=
  match els with
  | [] => (Ok T, db)
  | el :: els =>
      match instance_delete el db with
      | (Ok n, db') => delete_loop els (T + n)%Z db'
      | (Raise e, db') => (Raise e, db')
      end
  end.

(** [QuerySet.delete]: the elements are materialized by [__iter__] before
    the first of them is deleted. *)
Definition delete (self : @Query.QuerySet V) (db : DB)
    (log : list (@Query.call V))
    : result (Query.QuerySet * Z) * DB * list Query.call :=
  match Query.iter db self log with
  | (Raise e, log') => (Raise e, db, log')
  | (Ok (self', els), log') =>
      match delete_loop els 0 db with
      | (Ok T, db') => (Ok (self', T), db', log')
      | (Raise e, db') => (Raise e, db', log')
      end
  end.

End Results.
End Results.

Module Relations.
Section Relations.
Context {V DB : Type} {cursor : @Query.Cursor V DB}.

(** [RelatedManager]: [model] and [to] are given by their [_meta]; [obj] is
    the instance the manager is bound to, [None] on the class. *)
Record RelatedManager : Type := {
  model : @Query.Meta V;
  to : @Query.Meta V;
  fieldname : string;
  obj : option V
}.

(** [RelatedManager.__get__] *)
Definition __get__ (self : RelatedManager) (instance : option V)
    : RelatedManager :=
  {| model := model self; to := to self; fieldname := fieldname self;
     obj := instance |}.

Definition no_object : exception :=
  QuerySetError "Related manager has no object".

(** [RelatedManager.filter]: [kwargs[self.fieldname] = self.obj]. *)
Definition filter (self : RelatedManager) (kwargs : dict V)
    : result (@Query.QuerySet V) :=
  match obj self with
  | Some o =>
      Ok (Query.init (to self) (Some (dict_set (fieldname self) o kwargs))
            None None)
  | None => Raise no_object
  end.

(** [RelatedManager.get_related_object]:
    [self.model.objects.get(id = id)]. *)
Definition get_related_object (db : DB) (self : RelatedManager) (id : V)
    : Query.M (Query.QuerySet * Query.got) :=
  Query.Manager_get db (model self) [("id", id)].

(** [M2MRelatedManager.filter]: the query set is restricted to the link set
    of the manager; [to_meta] is [self.to._meta]. *)
Definition m2m_filter (to_meta : @Query.Meta V)
    (self : Query.M2MRelatedManager) (kwargs : dict V) : @Query.QuerySet V :=
  let extrasets := [Query.st self] in
  Query.init to_meta (Some kwargs) None (Some extrasets).

(** [self.model( **kwargs)] followed by [res.save()]. *)
Variable create : dict V -> DB -> result (@Query.Instance V) * DB.

(** [Manager.get_or_create]: only [ObjectNotFund] is caught. *)
Definition get_or_create (meta : @Query.Meta V) (kwargs : dict V) (db : DB)
    (log : list (@Query.call V))
    : result (Query.got * bool) * DB * list Query.call :=
  match Query.Manager_get db meta kwargs log with
  | (Ok (_, res), log') => (Ok (res, false), db, log')
  | (Raise ObjectNotFund, log') =>
      match create kwargs db with
      | (Ok res, db') => (Ok (Query.GotInstance res, true), db', log')
      | (Raise e, db') => (Raise e, db', log')
      end
  | (Raise e, log') => (Raise e, db, log')
  end.

End Relations.
End Relations.

(** ['__'.join(parts)], the inverse of [name.split('__')]. *)
Definition join_dunder (parts : list string) : string :=
  String.concat "__" parts.

(** * backends/base.py, continued: deletion and the key-value facade *)

Module Deletion.
Section Deletion.
Context {Obj Txn S : Type}.
Context {backend : @Base.Backend Obj Txn S}.

(** The two further methods [delete_object] calls on the backend:
    [self.transaction()] and the overridden [_delete_object]. *)
Class DeleteBackend : Type := {
  transaction : S -> Txn * S;
  _delete_object : Obj -> Txn -> S -> result unit * S
}.
Context {deleter : DeleteBackend}.

Inductive step : Type :=
| StepTransaction
| StepRemoveIndexes
| StepDeleteObject
| StepCommit.

(** [BackendDataServer.delete_object] *)
Definition delete_object (obj : Obj) (txn : option Txn)
    (w : S * list step) : result Z * (S * list step) :=
  let '(s, log) := w in
  let '(commit_, t, s, log) :=
    match txn with
    | None => let '(t, s) := transaction s in
              (true, t, s, log ++ [StepTransaction])
    | Some t => (false, t, s, log)
    end in
  match Base._remove_indexes obj t s with
  | (Raise e, s) => (Raise e, (s, log ++ [StepRemoveIndexes]))
  | (Ok _, s) =>
      let log := log ++ [StepRemoveIndexes] in
      match _delete_object obj t s with
      | (Raise e, s) => (Raise e, (s, log ++ [StepDeleteObject]))
      | (Ok _, s) =>
          let log := log ++ [StepDeleteObject] in
          if (commit_ : bool) then
            match Base.commit t s with
            | (Raise e, s) => (Raise e, (s, log ++ [StepCommit]))
            | (Ok _, s) => (Ok 1%Z, (s, log ++ [StepCommit]))
            end
          else (Ok 1%Z, (s, log))
      end
  end.

End Deletion.
End Deletion.

Module Store.

(** Errors of the facade: [ValueError], or an exception of the kinds above. *)
Inductive error : Type :=
| ValueError (msg : string)
| Other (e : exception).

Inductive outcome (A : Type) : Type :=
| Return (a : A)
| Throw (e : error).
Arguments Return {A} a.
Arguments Throw {A} e.

(** The Python values kept through the facade. *)
Inductive value : Type :=
| VNone
| VInt (n : Z)
| VStr (s : string).

#[global] Instance value_eq_dec : EqDecision value.
Proof. solve_decision. Defined.

Section Store.
Context {S Ack : Type}.

(** [self.pickler]: [dumps] and [loads]. *)
Class Pickler : Type := {
  dumps : value -> string;
  loads : string -> value
}.

(** The virtual methods [_set], [_get] and [delete] of a backend; [_get]
    returns the raw string stored under the id, or [None]. *)
Class KeyValue : Type := {
  _set : string -> string -> Z -> S -> result Ack * S;
  _get : string -> S -> result (option string);
  delete : string -> S -> result unit * S
}.

Context {pickler : Pickler} {backend : KeyValue}.

(** [timeout or 0] *)
Definition timeout_or_0 (timeout : option Z) : Z :=
  match timeout with
  | Some t => if (t =? 0)%Z then 0%Z else t
  | None => 0%Z
  end.

(** [set(id, value, timeout = None)] *)
Definition set (id : string) (v : value) (timeout : option Z) (s : S)
    : result Ack * S :=
  let timeout := timeout_or_0 timeout in
  let raw := dumps v in
  _set id raw timeout s.

(** Truth value of what [_get] returns: [None] and the empty string are
    false. *)
Definition truthy_raw (v : option string) : bool :=
  match v with
  | Some (String _ _) => true
  | Some EmptyString | None => false
  end.

(** [get(id, default = None)] *)
Definition get (id : string) (default : value) (s : S) : result value :=
  match _get id s with
  | Raise e => Raise e
  | Ok v =>
      if truthy_raw v then
        match v with
        | Some raw => Ok (loads raw)
        | None => Ok default
        end
      else Ok default
  end.

(** [get_many(keys)] *)
Fixpoint get_many_loop (keys : list string) (d : dict value) (s : S)
    : result (dict value) :=
  match keys with
  | [] => Ok d
  | k :: keys =>
      match get k VNone s with
      | Raise e => Raise e
      | Ok VNone => get_many_loop keys d s
      | Ok val => get_many_loop keys (dict_set k val d) s
      end
  end.

Definition get_many (keys : list string) (s : S) : result (dict value) :=
  get_many_loop keys [] s.

(** [has_key(key)]: [self.get(key) is not None]; [__contains__] calls it. *)
Definition has_key (key : string) (s : S) : result bool :=
  match get key VNone s with
  | Raise e => Raise e
  | Ok VNone => Ok false
  | Ok _ => Ok true
  end.

Definition __contains__ (key : string) (s : S) : result bool :=
  has_key key s.

Definition key_not_found (key : string) : error :=
  ValueError ("Key '" ++ key ++ "' not found").

Definition unsupported_operand : exception :=
  TypeError "unsupported operand type(s) for +".

(** [self.get(key) + delta] with an integer [delta] *)
Definition add (v : value) (delta : Z) : result value :=
  match v with
  | VInt n => Ok (VInt (n + delta))
  | VNone | VStr _ => Raise unsupported_operand
  end.

(** [incr(key, delta = 1)] *)
Definition incr (key : string) (delta : Z) (s : S) : outcome value * S :=
  match __contains__ key s with
  | Raise e => (Throw (Other e), s)
  | Ok false => (Throw (key_not_found key), s)
  | Ok true =>
      match get key VNone s with
      | Raise e => (Throw (Other e), s)
      | Ok v =>
          match add v delta with
          | Raise e => (Throw (Other e), s)
          | Ok new_value =>
              match set key new_value None s with
              | (Raise e, s') => (Throw (Other e), s')
              | (Ok _, s') => (Return new_value, s')
              end
          end
      end
  end.

(** [decr(key, delta = 1)] *)
Definition decr (key : string) (delta : Z) (s : S) : outcome value * S :=
  incr key (- delta) s.

(** [delete_many(keys)] *)
Fixpoint delete_many (keys : list string) (s : S) : result unit * S :=
  match keys with
  | [] => (Ok tt, s)
  | key :: keys =>
      match delete key s with
      | (Raise e, s') => (Raise e, s')
      | (Ok _, s') => delete_many keys s'
      end
  end.

End Store.
End Store.

(** * orm/search.py *)

Module Search.

(** ** SearchEngine: words of a text *)

Section Words.

(** The whitespace characters of the running interpreter. *)
Variable is_space : ascii -> bool.

(** [text.split()]: the maximal runs of characters that are not whitespace.
    The auxiliary function returns the word under construction at the head
    of the string and the words after it. *)
Fixpoint split_aux (s : string) : string * list string :=
  match s with
  | EmptyString => (EmptyString, [])
  | String c rest =>
      let '(w, ws) := split_aux rest in
      if is_space c then
        (EmptyString, match w with EmptyString => ws | _ => w :: ws end)
      else (String c w, ws)
  end.

(** [SearchEngine.split_text], the implementation of the base class. *)
Definition split_text_default (text : string) : list string :=
  let '(w, ws) := split_aux text in
  match w with EmptyString => ws | _ => w :: ws end.

(** The text with its whitespace characters removed. *)
Fixpoint without_spaces (s : string) : string :=
  match s with
  | EmptyString => EmptyString
  | String c rest =>
      if is_space c then without_spaces rest
      else String c (without_spaces rest)
  end.

Fixpoint has_space (s : string) : bool :=
  match s with
  | EmptyString => false
  | String c rest => is_space c || has_space rest
  end.

(** A word: not empty and free of whitespace. *)
Definition clean_word (w : string) : Prop :=
  w ≠ EmptyString ∧ has_space w = false.

(** A string of whitespace characters only. *)
Fixpoint all_space (s : string) : bool :=
  match s with
  | EmptyString => true
  | String c rest => is_space c && all_space rest
  end.

(** A string that is empty or starts with a whitespace character: what may
    follow the last character of a maximal run. *)
Definition starts_blank (s : string) : bool :=
  match s with
  | EmptyString => true
  | String c _ => is_space c
  end.

(** The maximal runs of non-whitespace characters of a text, from left to
    right: a text of whitespace only has none; otherwise the first run [w]
    comes after whitespace only, is not empty, holds no whitespace, and
    ends where the text ends or a whitespace character follows. *)
Inductive maximal_runs : string -> list string -> Prop :=
| runs_blank (s : string) :
    all_space s = true -> maximal_runs s []
| runs_word (sp w rest : string) (ws : list string) :
    all_space sp = true ->
    clean_word w ->
    starts_blank rest = true ->
    maximal_runs rest ws ->
    maximal_runs (sp ++ w ++ rest) (w :: ws).

End Words.

(** A word middleware maps the words so far to new words; it is registered
    with the flag [for_search]. *)
Definition middleware : Type := list string -> list string.

Section Engine.

(** [split_text] as the engine at hand implements it (subclasses override
    it). *)
Variable split_text : string -> list string.

(** [SearchEngine.words_from_text]; [text] may be [None]. *)
Definition words_from_text (word_middleware : list (middleware * bool))
    (text : option string) (for_search : bool) : list string :=
  match text with
  | None | Some EmptyString => []
  | Some text =>
      fold_left
        (fun word_gen mw =>
           if for_search && negb (snd mw) then word_gen
           else fst mw word_gen)
        word_middleware (split_text text)
  end.

End Engine.

(** [SearchEngine.add_word_middleware]: only a callable is registered;
    [None] stands for an argument that is not callable. *)
Definition add_word_middleware (word_middleware : list (middleware * bool))
    (mw : option middleware) (for_search : bool)
    : list (middleware * bool) :=
  match mw with
  | Some f => word_middleware ++ [(f, for_search)]
  | None => word_middleware
  end.

(** The [stopwords] middleware of the class documentation. *)
Definition stopwords (swords : list string) : middleware :=
  fun words => base.filter (fun word => word ∉ swords) words.

(** [SearchEngine.add_processor]; processors are compared by identity. *)
Definition add_processor (ITEM_PROCESSORS : list nat) (processor : nat)
    : list nat :=
  if decide (processor ∈ ITEM_PROCESSORS) then ITEM_PROCESSORS
  else ITEM_PROCESSORS ++ [processor].

(** ** UpdateSE *)

(** Instances are objects, named by their address.  The attribute store
    tells, for an object that has the attribute [last_indexed], whether it
    is [None] or a time; an object without an entry has no such
    attribute. *)
Inductive signal : Type := post_commit | post_delete.

Inductive event : Type :=
| Begin (name : string)
| SessionAdd (instance : nat)
| IndexItem (instance : nat) (stamp : nat)
| RemoveItem (sender : string) (instances : list nat)
| End_.

(** [not getattr(instance, 'last_indexed', True)] *)
Definition needs_index (attrs : gmap nat (option nat)) (instance : nat)
    : bool :=
  match attrs !! instance with
  | Some None => true
  | Some (Some _) | None => false
  end.

(** The loop of [UpdateSE.index]; [clock k] is what the [k]-th call of
    [datetime.now()] returns. *)
Fixpoint index_loop (clock : nat -> nat) (tick : nat) (instances : list nat)
    (attrs : gmap nat (option nat)) : list event * gmap nat (option nat) :=
  match instances with
  | [] => ([], attrs)
  | instance :: rest =>
      if needs_index attrs instance then
        let stamp := clock tick in
        let attrs := <[instance := Some stamp]> attrs in
        let '(events, attrs) := index_loop clock (Datatypes.S tick) rest attrs in
        (SessionAdd instance :: IndexItem instance stamp :: events, attrs)
      else index_loop clock tick rest attrs
  end.

(** The instances handed to [index_item], one entry for each call, in the
    order of the calls. *)
Definition indexed (events : list event) : list nat :=
  omap (fun e => match e with IndexItem i _ => Some i | _ => None end) events.

(** [UpdateSE.index] *)
Definition index (clock : nat -> nat) (instances : list nat)
    (attrs : gmap nat (option nat)) : list event * gmap nat (option nat) :=
  let '(events, attrs) := index_loop clock 0 instances attrs in
  (Begin "Update search indexes" :: events ++ [End_], attrs).

(** [UpdateSE.remove]; [sender] is [None] when no sender is given. *)
Definition remove (instances : list nat) (sender : option string)
    : list event :=
  match sender with
  | Some model =>
      [Begin "Remove search indexes"; RemoveItem model instances; End_]
  | None => []
  end.

Definition no_session : Store.error :=
  Store.ValueError "No session available. Cannot updated indexes.".

(** [UpdateSE.__call__]; [session] is [None] or a session. *)
Definition update (clock : nat -> nat) (instances : list nat)
    (attrs : gmap nat (option nat)) (session : option unit)
    (sig : option signal) (sender : option string)
    : Store.outcome (list event * gmap nat (option nat)) :=
  match session with
  | None => Store.Throw no_session
  | Some _ =>
      match sig with
      | Some post_delete => Store.Return (remove instances sender, attrs)
      | Some post_commit | None => Store.Return (index clock instances attrs)
      end
  end.

(** ** stdnet_processor *)

(** What [field_iterator] reads of a field and of the item for it:
    [getattr(item, field.attname)] for a text field, and
    [getattr(item, field.name, None)] for a related field. *)
Record fieldinfo : Type := {
  hidden : bool;
  type : string;
  name : string;
  text : option string
}.

(** A model instance: [_index_related] and the fields of its [_meta], each
    with the related object it refers to, if any. *)
#[warnings="-register-all"]
Inductive item : Type :=
| Item (_index_related : list string)
       (fields : list (fieldinfo * option item)).

Definition truthy_text (value : option string) : list string :=
  match value with
  | Some (String c s) => [String c s]
  | Some EmptyString | None => []
  end.

(** [stdnet_processor.field_iterator] *)
Fixpoint field_iterator (it : item) : list string :=
  match it with
  | Item related fields =>
      flat_map
        (fun fv : fieldinfo * option item =>
           let '(field, value) := fv in
           if hidden field then []
           else if String.eqb (type field) "text" then truthy_text (text field)
           else if bool_decide (name field ∈ related) then
             match value with
             | Some related_item => field_iterator related_item
             | None => []
             end
           else [])
        fields
  end.

End Search.

(** * Concrete instances for the facade and for deletion *)

Module StoreFixtures.

(** A pickler that writes an integer as a sign and as many strokes as its
    absolute value, a string behind the letter s, and [None] as n. *)
Fixpoint strokes (k : nat) : string :=
  match k with
  | O => EmptyString
  | Datatypes.S k => String "1" (strokes k)
  end.

Definition stroke_dumps (v : Store.value) : string :=
  match v with
  | Store.VNone => "n"
  | Store.VStr s => String "s" s
  | Store.VInt n =>
      String (if (n <? 0)%Z then "-"%char else "+"%char) (strokes (Z.abs_nat n))
  end.

Definition stroke_loads (raw : string) : Store.value :=
  match raw with
  | String "+"%char r => Store.VInt (Z.of_nat (String.length r))
  | String "-"%char r => Store.VInt (- Z.of_nat (String.length r))
  | String "s"%char r => Store.VStr r
  | _ => Store.VNone
  end.

#[global] Instance stroke_pickler : Store.Pickler := {|
  Store.dumps := stroke_dumps;
  Store.loads := stroke_loads
|}.

(** A backend that keeps the raw string and the timeout of each key in a
    finite map. *)
#[global] Instance map_backend
    : @Store.KeyValue (gmap string (string * Z)) unit := {|
  Store._set := fun id raw timeout s => (Ok tt, <[id := (raw, timeout)]> s);
  Store._get := fun id s => Ok (fst <$> s !! id);
  Store.delete := fun id s => (Ok tt, base.delete id s)
|}.

Definition hits : gmap string (string * Z) :=
  <["hits" := ("+111", 30%Z)]> (<["blank" := ("", 0%Z)]> ∅).

(** Deleting an instance of the in-memory database removes its stored data
    and reports one object removed. *)
Definition forget (el : @Query.Instance Memory.pyvalue)
    (db : @Memory.database Memory.pyvalue)
    : result Z * @Memory.database Memory.pyvalue :=
  (Ok 1%Z,
   {| Memory.objects :=
        base.filter (fun p => fst p ≠ Query.inst_id el) (Memory.objects db);
      Memory.indexes := Memory.indexes db;
      Memory.sets := Memory.sets db |}).

End StoreFixtures.

(** * Properties *)

(** ** Dictionaries *)

Section DictFacts.
Context {A : Type}.
Implicit Types (d other : dict A) (k : string) (v : A).

Lemma dict_get_set_eq k v d : dict_get k (dict_set k v d) = Some v.
Proof.
  induction d as [|[k' v'] d IH]; simpl.
  - by rewrite String.eqb_refl.
  - destruct (String.eqb k k') eqn:E; simpl; rewrite E; [done | exact IH].
Qed.

Lemma dict_get_set_ne k k' v d :
  k ≠ k' → dict_get k' (dict_set k v d) = dict_get k' d.
Proof.
  intros Hne. induction d as [|[k0 v0] d IH]; simpl.
  - destruct (String.eqb k' k) eqn:E; [|done].
    apply String.eqb_eq in E. congruence.
  - destruct (String.eqb k k0) eqn:E; simpl.
    + apply String.eqb_eq in E. subst k0.
      destruct (String.eqb k' k) eqn:E'; [|done].
      apply String.eqb_eq in E'. congruence.
    + by rewrite IH.
Qed.

Lemma dict_get_absent k d : k ∉ map fst d → dict_get k d = None.
Proof.
  induction d as [|[k' v'] d IH]; simpl; [done|].
  intros Hnot. destruct (String.eqb k k') eqn:E.
  - apply String.eqb_eq in E. subst. exfalso. apply Hnot. left.
  - apply IH. intros Hin. apply Hnot. by right.
Qed.

Lemma dict_get_present k d : k ∈ map fst d → is_Some (dict_get k d).
Proof.
  induction d as [|[k' v'] d IH]; simpl.
  - by intros ?%elem_of_nil.
  - intros [->|Hin]%elem_of_cons.
    + rewrite String.eqb_refl. by eexists.
    + destruct (String.eqb k k'); [by eexists | by apply IH].
Qed.

(** After [d.update(other)] a key of [other] has the value [other] gives it,
    any other key the value it had in [d]. *)
Lemma dict_get_update k d other :
  NoDup (map fst other) →
  dict_get k (dict_update d other) =
    match dict_get k other with
    | Some v => Some v
    | None => dict_get k d
    end.
Proof.
  unfold dict_update. revert d.
  induction other as [|[k1 v1] other IH]; intros d Hnd; simpl; [done|].
  apply NoDup_cons in Hnd as [Hk1 Hnd].
  rewrite IH by done.
  destruct (String.eqb k k1) eqn:E.
  - apply String.eqb_eq in E. subst k1.
    rewrite (dict_get_absent k other Hk1). apply dict_get_set_eq.
  - destruct (dict_get k other); [done|].
    apply dict_get_set_ne. intros ->. by rewrite String.eqb_refl in E.
Qed.

Lemma dict_set_keeps k k' v d :
  is_Some (dict_get k' d) → is_Some (dict_get k' (dict_set k v d)).
Proof.
  intros H. destruct (decide (k = k')) as [->|Hne].
  - rewrite dict_get_set_eq. by eexists.
  - by rewrite dict_get_set_ne.
Qed.

End DictFacts.

(** ** QuerySet.filter and QuerySet.exclude *)

Section FilterFacts.
Context {V : Type}.
Implicit Types (self : @Query.QuerySet V) (kwargs : dict V).

(** When the receiver's [fargs] is a dictionary, [filter] returns a fresh,
    not yet compiled query set on the same model with the same [eargs]. *)
Lemma filter_returns_new self kwargs d :
  Query.fargs self = Some d →
  Query.filter self kwargs =
    Ok (Query.init (Query._meta self) (Some (dict_update kwargs d))
          (Query.eargs self) None).
Proof. intros H. unfold Query.filter. by rewrite H. Qed.

Lemma exclude_returns_new self kwargs d :
  Query.eargs self = Some d →
  Query.exclude self kwargs =
    Ok (Query.init (Query._meta self) (Query.fargs self)
          (Some (dict_update kwargs d)) None).
Proof. intros H. unfold Query.exclude. by rewrite H. Qed.

(** C6: on a key collision the predicate already held by the receiver wins,
    for [filter] on [fargs] and for [exclude] on [eargs]; a key the receiver
    does not hold takes the newly supplied value. *)
Theorem existing_predicates_win self kwargs (existing : dict V) k v :
  NoDup (map fst existing) →
  dict_get k existing = Some v →
  (Query.fargs self = Some existing →
   ∃ new merged,
     Query.filter self kwargs = Ok new ∧
     Query.fargs new = Some merged ∧
     dict_get k merged = Some v ∧
     ∀ k', dict_get k' existing = None →
           dict_get k' merged = dict_get k' kwargs) ∧
  (Query.eargs self = Some existing →
   ∃ new merged,
     Query.exclude self kwargs = Ok new ∧
     Query.eargs new = Some merged ∧
     dict_get k merged = Some v ∧
     ∀ k', dict_get k' existing = None →
           dict_get k' merged = dict_get k' kwargs).
Proof.
  intros Hnd Hk. split; intros Hself.
  - eexists _, _. split; [by apply filter_returns_new|].
    split; [done|]. split.
    + by rewrite dict_get_update, Hk.
    + intros k' Hk'. by rewrite dict_get_update, Hk'.
  - eexists _, _. split; [by apply exclude_returns_new|].
    split; [done|]. split.
    + by rewrite dict_get_update, Hk.
    + intros k' Hk'. by rewrite dict_get_update, Hk'.
Qed.

(** C9: [filter] on a query set whose [fargs] is [None] and [exclude] on one
    whose [eargs] is [None] raise [TypeError], whatever the new predicates;
    query sets made by [Manager.exclude] and [Manager.filter] are such. *)
Theorem cross_chaining_raises self kwargs :
  (Query.fargs self = None →
   Query.filter self kwargs = Raise Query.none_not_iterable) ∧
  (Query.eargs self = None →
   Query.exclude self kwargs = Raise Query.none_not_iterable) ∧
  (∀ meta kw,
     Query.filter (Query.Manager_exclude meta kw) kwargs
       = Raise Query.none_not_iterable ∧
     Query.exclude (Query.Manager_filter meta kw) kwargs
       = Raise Query.none_not_iterable).
Proof.
  split; [|split].
  - intros H. unfold Query.filter. by rewrite H.
  - intros H. unfold Query.exclude. by rewrite H.
  - intros meta kw. split; reflexivity.
Qed.

End FilterFacts.

(** ** Query compilation *)

Section AggregateFacts.
Context {V : Type}.
Implicit Types (meta : @Query.Meta V) (res : dict V).

Lemma resolve_single meta name value field u :
  length (split_dunder name) = 1%nat →
  Query.dfields meta !! name = Some field →
  Query.resolve meta name value u
    = Ok (field, Query.serialize field value, Query.unique field).
Proof.
  intros Hlen Hfield. unfold Query.resolve. rewrite Hlen. simpl.
  by rewrite Hfield.
Qed.

(** The loop walks over predicates that compile to plain index clauses. *)
Lemma aggregate_loop_plain_prefix meta filter pre rest :
  Forall (fun kv => Query.compiles_plain meta kv = true) pre →
  ∀ res, ∃ res',
    Query.aggregate_loop meta filter (pre ++ rest) false res
      = Query.aggregate_loop meta filter rest false res'.
Proof.
  induction 1 as [|[name value] pre Hplain _ IH]; intros res.
  - by exists res.
  - simpl. unfold Query.compiles_plain in Hplain. simpl in Hplain.
    destruct (Query.resolve meta name value false) as [[[field v'] u]|e];
      [|done].
    destruct u; [done|]. rewrite Hplain. apply IH.
Qed.

(** With [filter = False] the loop has no [break]: a result is a mapping
    that holds every key it started with and every key of the predicates. *)
Lemma aggregate_loop_exclusion meta items : ∀ u res r,
  Query.aggregate_loop meta false items u res = Ok r →
  ∃ d, r.2 = Query.Mapping d ∧
       ∀ k, is_Some (dict_get k res) ∨ k ∈ map fst items →
            is_Some (dict_get k d).
Proof.
  induction items as [|[name value] items IH]; intros u res r; simpl.
  - intros [= <-]. exists res. split; [done|].
    intros k [Hk|Hk]; [done | by apply elem_of_nil in Hk].
  - destruct (Query.resolve meta name value u) as [[[field v'] u1]|e];
      [|done].
    assert (Hstep : ∀ res1,
      (∀ k, is_Some (dict_get k res) → is_Some (dict_get k res1)) →
      is_Some (dict_get name res1) →
      Query.aggregate_loop meta false items u1 res1 = Ok r →
      ∃ d, r.2 = Query.Mapping d ∧
           ∀ k, is_Some (dict_get k res) ∨ k ∈ name :: map fst items →
                is_Some (dict_get k d)).
    { intros res1 Hkeep Hname Hrun.
      destruct (IH _ _ _ Hrun) as (d & Hd & Hall).
      exists d. split; [done|].
      intros k [Hk|[->|Hk]%elem_of_cons]; apply Hall; auto. }
    destruct u1.
    + apply Hstep.
      * intros k Hk. by do 2 apply dict_set_keeps.
      * apply dict_set_keeps. rewrite dict_get_set_eq. by eexists.
    + destruct (Query.index field); [|done].
      apply Hstep.
      * intros k Hk. by apply dict_set_keeps.
      * rewrite dict_get_set_eq. by eexists.
Qed.

End AggregateFacts.

Section BuildqueryFacts.
Context {V DB : Type} {cursor : @Query.Cursor V DB}.
Implicit Types (meta : @Query.Meta V) (self : @Query.QuerySet V) (db : DB)
  (log : list (@Query.call V)).

Ltac run_query :=
  unfold Query.buildquery, Query.get, Query.items, Query.iter, Query.count,
    mbind, mret, Query.M_bind, Query.M_ret, Query.bind, Query.lift,
    Query.tell, Query.ret, Query.raise;
  cbn [Query.qset Query.init Query.fargs Query.eargs Query._meta
       Query.filter_sets Query._seq].

(** After [buildquery] the query handle is set. *)
Lemma buildquery_sets_qset db self log self' log' :
  Query.buildquery db self log = (Ok self', log') →
  is_Some (Query.qset self').
Proof.
  run_query. destruct (Query.qset self) as [q|] eqn:Hq.
  - intros [= <- <-]. rewrite Hq. by eexists.
  - destruct (Query.aggregate self (Query.fargs self) true)
      as [[[] fa]|e]; simpl; [| |done].
    + destruct fa as [d|name value]; [done|].
      destruct (Query.get_object _ _ _ _); intros [= <- <-]. by eexists.
    + destruct (truthy_dict (Query.eargs self)).
      * destruct (Query.aggregate self (Query.eargs self) false)
          as [[u1 ea]|e]; simpl; [|done].
        destruct (Query.query _ _ _ _ _); intros [= <- <-]. by eexists.
      * simpl. destruct (Query.query _ _ _ _ _); intros [= <- <-].
        by eexists.
Qed.

(** C1 (amended): when every predicate iterated before the first single-part
    predicate on a unique field compiles to a plain index clause, compilation
    with [filter = True] stops at that predicate and returns its
    [(name, value)] pair with the unique flag set, and [buildquery] on the
    not yet compiled query set makes exactly one backend call, the
    single-object fetch [get_object]; the predicates after it and the
    exclusion predicates play no role. *)
Theorem unique_lookup_short_circuits meta (pre post : dict V) name value field
    eargs filter_sets db log :
  length (split_dunder name) = 1%nat →
  Query.dfields meta !! name = Some field →
  Query.unique field = true →
  Forall (fun kv => Query.compiles_plain meta kv = true) pre →
  let kwargs := pre ++ (name, value) :: post in
  let self := Query.init meta (Some kwargs) eargs filter_sets in
  let value' := Query.serialize field value in
  Query.aggregate self (Some kwargs) true = Ok (true, Query.Pair name value') ∧
  Query.buildquery db self log =
    (match Query.get_object meta name value' db with
     | Ok r => Ok (Query.set_qset self (Query.svset r))
     | Raise e => Raise e
     end, log ++ [Query.CallGetObject name value']).
Proof.
  intros Hlen Hfield Hunique Hpre kwargs self value'.
  assert (Hagg : Query.aggregate self (Some kwargs) true
                 = Ok (true, Query.Pair name value')).
  { unfold Query.aggregate, kwargs. simpl.
    destruct (aggregate_loop_plain_prefix meta true pre ((name, value) :: post)
                Hpre []) as [res' ->].
    simpl. rewrite (resolve_single meta name value field false Hlen Hfield).
    by rewrite Hunique. }
  split; [exact Hagg|].
  subst self. run_query. rewrite Hagg.
  by destruct (Query.get_object meta name value' db).
Qed.

(** C7 (amended): on a not yet compiled query set whose positive predicates
    compile without a unique short-circuit and whose [eargs] is not empty,
    [buildquery] compiles the exclusion predicates with [filter = False];
    that compilation either raises, and then no backend call is made, or
    returns a mapping holding a clause for every exclusion predicate, which
    is passed to [cursor.query], the only backend call. *)
Theorem exclusion_never_short_circuits meta (fa ea : dict V) filter_sets db log
    F :
  let self := Query.init meta (Some fa) (Some ea) filter_sets in
  Query.aggregate self (Some fa) true = Ok (false, F) →
  ea ≠ [] →
  match Query.aggregate self (Some ea) false with
  | Raise e => Query.buildquery db self log = (Raise e, log)
  | Ok (_, E) =>
      (∃ d, E = Query.Mapping d ∧
            ∀ k, k ∈ map fst ea → is_Some (dict_get k d)) ∧
      Query.buildquery db self log =
        (match Query.query meta F (Some E) filter_sets db with
         | Ok q => Ok (Query.set_qset self q)
         | Raise e => Raise e
         end, log ++ [Query.CallQuery F (Some E) filter_sets])
  end.
Proof.
  intros self Hfa Hea.
  assert (Htruthy : truthy_dict (Some ea) = true) by by destruct ea.
  destruct (Query.aggregate self (Some ea) false) as [[u E]|e] eqn:Hagg.
  - split.
    + unfold Query.aggregate in Hagg. simpl in Hagg.
      destruct (aggregate_loop_exclusion _ _ _ _ _ Hagg) as (d & Hd & Hall).
      exists d. split; [exact Hd|]. intros k Hk. apply Hall. by right.
    + subst self. run_query. rewrite Hfa, Htruthy, Hagg.
      by destruct (Query.query meta F (Some E) filter_sets db).
  - subst self. run_query. by rewrite Hfa, Htruthy, Hagg.
Qed.

(** C8 (amended): [get] passes on an error of [buildquery]; on a unique
    short-circuit it returns the wrapped object, an [svset] having length
    one whatever the lookup found; on a collection of ids it returns the
    stored data of the sole id when there is exactly one and raises the
    non-unique error when there are none or several. *)
Theorem get_by_handle db self log :
  match Query.buildquery db self log with
  | (Raise e, log') => Query.get db self log = (Raise e, log')
  | (Ok self', log') =>
      match Query.qset self' with
      | Some (Query.svset r) =>
          Query.get db self log = (Ok (self', Query.GotInstance r), log')
      | Some (Query.QIds [id]) =>
          Query.get db self log =
            (Ok (self', Query.GotStored
                          (Query.hash_get (Query._meta self') id db)),
             log' ++ [Query.CallHashGet id])
      | Some (Query.QIds _) =>
          Query.get db self log = (Raise Query.non_unique, log')
      | Some Query.QAll => True
      | None => False
      end
  end.
Proof.
  destruct (Query.buildquery db self log) as [[self'|e] log'] eqn:Hbuild.
  - pose proof (buildquery_sets_qset _ _ _ _ _ Hbuild) as [q Hq].
    rewrite Hq. unfold Query.get, mbind, Query.M_bind, Query.bind.
    rewrite Hbuild, Hq.
    destruct q as [r| |[|id [|id' l]]]; try done.
    assert (Hlen : (Z.of_nat (length (id :: id' :: l)) =? 1)%Z = false).
    { apply Z.eqb_neq. simpl length. lia. }
    unfold Query.len. by rewrite Hlen.
  - unfold Query.get, mbind, Query.M_bind, Query.bind. by rewrite Hbuild.
Qed.

Lemma resolve_by_shape meta name value u :
  if supported_shape name
  then Query.resolve meta name value u ≠ Raise Query.nested_lookup
  else Query.resolve meta name value u = Raise Query.nested_lookup.
Proof.
  unfold supported_shape, Query.resolve.
  destruct (Nat.eqb (length (split_dunder name)) 1); simpl.
  - by destruct (Query.dfields meta !! name).
  - destruct (Nat.eqb (length (split_dunder name)) 2
              && String.eqb (nth 1 (split_dunder name) "") "in"); [|done].
    by destruct (Query.fields meta !! nth 0 (split_dunder name) "").
Qed.

Lemma unsupported_shape_raises meta name value u :
  supported_shape name = false →
  Query.resolve meta name value u = Raise Query.nested_lookup.
Proof.
  intros Hshape. pose proof (resolve_by_shape meta name value u) as H.
  by rewrite Hshape in H.
Qed.

Lemma compiled_mapping_shapes meta filter items : ∀ u res u' d,
  Query.aggregate_loop meta filter items u res = Ok (u', Query.Mapping d) →
  Forall (fun kv => supported_shape (fst kv) = true) items.
Proof.
  induction items as [|[name value] items IH]; intros u res u' d; simpl;
    [done|].
  destruct (supported_shape name) eqn:Hshape.
  - intros Hrun. constructor; [done|].
    destruct (Query.resolve meta name value u) as [[[field v'] u1]|e];
      [|done].
    destruct u1.
    + destruct filter; [done | by eapply IH].
    + destruct (Query.index field); [by eapply IH | done].
  - by rewrite (unsupported_shape_raises meta name value u Hshape).
Qed.

(** C2 (amended): the range lookups of the scenario do not compile.
    Materializing [filter(pv__gt=...)] and [filter(pv__ge=..., pv__lt=...)],
    in either iteration order, raises [NotImplementedError] before any
    backend call, for every model, backend and database contents.  Only
    plain and [__in] lookups compile: a predicate resolves to the
    nested-lookup error exactly when its name has neither shape, a query
    whose first predicate has neither shape raises that error before any
    backend call, and every predicate of a compiled mapping has one of the
    two shapes. *)
Theorem range_lookups_not_available meta db log (a b : V) :
  Query.iter db (Query.Manager_filter meta [("pv__gt", a)]) log
    = (Raise Query.nested_lookup, log) ∧
  Query.iter db (Query.Manager_filter meta [("pv__ge", a); ("pv__lt", b)]) log
    = (Raise Query.nested_lookup, log) ∧
  Query.iter db (Query.Manager_filter meta [("pv__lt", b); ("pv__ge", a)]) log
    = (Raise Query.nested_lookup, log) ∧
  (∀ name value u,
     if supported_shape name
     then Query.resolve meta name value u ≠ Raise Query.nested_lookup
     else Query.resolve meta name value u = Raise Query.nested_lookup) ∧
  (∀ name value rest,
     supported_shape name = false →
     Query.iter db (Query.Manager_filter meta ((name, value) :: rest)) log
       = (Raise Query.nested_lookup, log)) ∧
  (∀ filter items u res u' d,
     Query.aggregate_loop meta filter items u res
       = Ok (u', Query.Mapping d) →
     Forall (fun kv => supported_shape (fst kv) = true) items).
Proof.
  do 3 (split; [reflexivity|]).
  split; [apply resolve_by_shape|]. split.
  - intros name value rest Hshape. unfold Query.Manager_filter.
    do 3 run_query. unfold Query.aggregate.
    cbn [Query.qset Query.init Query.fargs Query._seq Query._meta
         Query.aggregate_loop default].
    by rewrite (unsupported_shape_raises meta name value false Hshape).
  - intros filter items u res u' d. apply compiled_mapping_shapes.
Qed.

End BuildqueryFacts.

(** ** Many-to-many managers *)

Section ManyToManyFacts.
Implicit Types (g : Query.ObjectGraph) (self : Query.M2MRelatedManager)
  (value : Query.oid) (links : Query.linksets).

Lemma members_add_same self value links :
  Query.members (Query._add self value links) (Query.st self)
    = {[value]} ∪ Query.members links (Query.st self).
Proof.
  unfold Query.members, Query._add, Query.linksets in *.
  by rewrite lookup_insert_eq.
Qed.

Lemma members_add_grows self value links st :
  Query.members links st ⊆ Query.members (Query._add self value links) st.
Proof.
  unfold Query.members, Query._add, Query.linksets in *.
  destruct (decide (Query.st self = st)) as [<-|Hne].
  - rewrite lookup_insert_eq. simpl. set_solver.
  - by rewrite lookup_insert_ne.
Qed.

(** C4: [add] raises [FieldValueError] when [value] is not an instance of the
    related model; given an instance, it returns and leaves every link set as
    it was when [value] is the owning instance itself; otherwise it adds
    [value] to the owner's link set and the owner to the link set of the
    reciprocal manager of [value], and removes nothing. *)
Theorem m2m_add_updates_both_sides g self value links :
  (Query.isinstance g value (Query.to self) = false →
   Query.add g self value links
     = (Raise (Query.not_an_instance g value (Query.to self)), links)) ∧
  (Query.isinstance g value (Query.to self) = true →
   value = Query.instance self →
   Query.add g self value links = (Ok tt, links)) ∧
  (Query.isinstance g value (Query.to self) = true →
   value ≠ Query.instance self →
   ∀ related, Query.getattr g value (Query.to_name self) = Some related →
   ∃ links',
     Query.add g self value links = (Ok tt, links') ∧
     value ∈ Query.members links' (Query.st self) ∧
     Query.instance self ∈ Query.members links' (Query.st related) ∧
     ∀ st, Query.members links st ⊆ Query.members links' st).
Proof.
  unfold Query.add. split; [|split].
  - by intros ->.
  - intros -> ->. simpl. by rewrite Pos.eqb_refl.
  - intros -> Hne related ->. simpl.
    apply Pos.eqb_neq in Hne. rewrite Hne.
    eexists. split; [done|]. split; [|split].
    + apply (members_add_grows related). rewrite members_add_same.
      set_solver.
    + rewrite members_add_same. set_solver.
    + intros st. etrans; [apply (members_add_grows self value)|].
      apply members_add_grows.
Qed.

End ManyToManyFacts.

(** ** The generic backend *)

Section BackendFacts.
Context {V Obj Txn DB : Type}.
Context {model : @Base.StdModel V Obj Txn DB}.
Context {backend : @Base.Backend Obj Txn DB}.

(** C10: [isempty] returns the number of keys: it is 0 exactly when the
    database has no keys, so its truth value is the opposite of what the
    docstring announces. *)
Theorem isempty_counts_keys (s : DB) :
  Base.isempty s = Z.of_nat (length (Base.list_of (Base.keys s))) ∧
  (Base.isempty s = 0%Z ↔ Base.list_of (Base.keys s) = []) ∧
  Base.bool_of_int (Base.isempty s) = negb (Base.isempty_docstring s).
Proof.
  unfold Base.isempty, Base.isempty_docstring, Base.bool_of_int, Base.list_of.
  destruct (Base.keys s) as [l|l]; destruct l; simpl; repeat split;
    intros; try done; lia.
Qed.

(** C3 (amended): an instance that is not valid makes [save_object] raise
    [FieldValueError] before any operation on stored objects: no read of
    the previous state, no index removal, no object write, no commit.  When
    a transaction is passed, the validation is the only step taken and the
    backend state is unchanged; when none is passed, the local transaction
    is opened on the backend before the validation, and that is the only
    step before it. *)
Theorem invalid_instance_not_saved (obj : Obj) (transaction : option Txn)
    (s : DB) (log : list Base.operation) :
  Base.is_valid obj = false →
  let ops := match transaction with
             | None => [Base.OpLocalTransaction; Base.OpIsValid]
             | Some _ => [Base.OpIsValid]
             end in
  let s' := match transaction with
            | None => (Base.local_transaction obj s).2
            | Some _ => s
            end in
  Base.save_object obj transaction (s, log)
    = (Raise (FieldValueError (Base.errors obj)), (s', log ++ ops)) ∧
  Forall (fun o => Base.object_operation o = false) ops ∧
  (∀ t, transaction = Some t →
        s' = s ∧ Forall (fun o => Base.backend_operation o = false) ops).
Proof.
  intros Hinvalid ops s'. split; [|split].
  - unfold Base.save_object, mbind, mret, Base.M_bind, Base.M_ret, Base.bind,
      Base.tell, Base.run_total, Base.raise, Base.ret.
    subst ops s'. destruct transaction as [t|]; simpl.
    + by rewrite Hinvalid.
    + destruct (Base.local_transaction obj s) as [t s1]. simpl.
      rewrite Hinvalid. simpl. by rewrite <- app_assoc.
  - subst ops. destruct transaction; repeat constructor.
  - intros t ->. subst ops s'. split; [done | repeat constructor].
Qed.

End BackendFacts.

(** ** The properties on the example model *)

Section Scenarios.
Import Memory.

(** Equality and [__in] lookups on the indexed field do compile and run. *)
Example equality_lookup_runs :
  (Query.iter numeric_db (Query.Manager_filter NumericData [("pv", pv 2)]) []).2
    = [Query.CallQuery (Query.Mapping [("pv", pv 2)]) None None;
       Query.CallTableMget [PInt 4]].
Proof. vm_compute. reflexivity. Qed.

(** [get] on the unrestricted query set of a table holding exactly one
    instance: the handle is the string ['all'], whose length is 3. *)
Example get_on_all_handle :
  (Query.iter single_db (Query.Manager_all NumericData) []).1
    = Ok (Query.set_seq
            (Query.set_qset (Query.Manager_all NumericData) Query.QAll)
            [Query.make (PInt 1) [("pv", pv 2)]],
          [Query.make (PInt 1) [("pv", pv 2)]]) ∧
  (Query.get single_db (Query.Manager_all NumericData) []).1
    = Raise Query.non_unique.
Proof. split; vm_compute; reflexivity. Qed.

(** C1, as stated, fails: the mapping holds the single-part predicate
    [id = 4] on a unique field, but a predicate iterated before it does not
    compile, so compilation raises and no object is fetched. *)
Lemma unique_lookup_pre_empted :
  let nested := [("pv__gt", pv 1); ("id", PInt 4)] in
  let unindexed := [("note", PStr "x"); ("id", PInt 4)] in
  length (split_dunder "id") = 1%nat ∧
  Query.unique <$> (Query.dfields NumericData !! "id") = Some true ∧
  Query.aggregate (Query.Manager_filter NumericData nested) (Some nested) true
    = Raise Query.nested_lookup ∧
  Query.buildquery numeric_db (Query.Manager_filter NumericData nested) []
    = (Raise Query.nested_lookup, []) ∧
  Query.buildquery numeric_db (Query.Manager_filter NumericData unindexed) []
    = (Raise (Query.not_an_index "note"), []).
Proof. repeat split; vm_compute; reflexivity. Qed.

Lemma unique_lookup_short_circuits_witness :
  let kwargs := [("pv", pv 2); ("id", PInt 4); ("pv__gt", pv 1)] in
  let self := Query.init NumericData (Some kwargs) (Some [("pv", pv 0)]) None in
  Query.aggregate self (Some kwargs) true
    = Ok (true, Query.Pair "id" (PInt 4)) ∧
  Query.buildquery numeric_db self []
    = (Ok (Query.set_qset self
             (Query.svset (Query.make (PInt 4) [("pv", pv 2)]))),
       [Query.CallGetObject "id" (PInt 4)]).
Proof.
  assert (Hsingle : length (split_dunder "id") = 1%nat) by reflexivity.
  assert (Hfield : Query.dfields NumericData !! "id" = Some id_field)
    by reflexivity.
  assert (Hplain : Forall (fun kv => Query.compiles_plain NumericData kv = true)
                     [("pv", pv 2)]) by (repeat constructor).
  exact (unique_lookup_short_circuits NumericData [("pv", pv 2)]
           [("pv__gt", pv 1)] "id" (PInt 4) id_field
           (Some [("pv", pv 0)]) None numeric_db []
           Hsingle Hfield eq_refl Hplain).
Defined.

(** C2, as stated, fails: neither range query of the scenario yields any
    list of instances on the five committed instances. *)
Lemma range_scenario_yields_nothing :
  ¬ (∃ self l log,
       Query.iter numeric_db
         (Query.Manager_filter NumericData [("pv__gt", pv 1)]) []
         = (Ok (self, l), log) ∧
       pvs l ≡ₚ [Some (pv 2); Some (pv 4)]) ∧
  ¬ (∃ self l log,
       Query.iter numeric_db
         (Query.Manager_filter NumericData
            [("pv__ge", pv (-2)); ("pv__lt", pv 3)]) []
         = (Ok (self, l), log) ∧
       pvs l ≡ₚ [Some (pv (-1)); Some (pv 0); Some (pv 2)]).
Proof.
  split; intros (self & l & log & Hrun & _); vm_compute in Hrun;
    discriminate.
Qed.

(** C5, at its failing input: a query set made by [Manager.exclude] has no
    [fargs], and filtering it raises [TypeError] instead of returning a new
    query set; likewise for [exclude] on one made by [Manager.filter]. *)
Lemma filter_after_manager_exclude :
  Query.filter (Query.Manager_exclude NumericData [("pv", pv 2)])
    [("pv", pv 4)] = Raise Query.none_not_iterable ∧
  Query.exclude (Query.Manager_filter NumericData [("pv", pv 2)])
    [("pv", pv 4)] = Raise Query.none_not_iterable ∧
  Query.fargs (Query.Manager_exclude NumericData [("pv", pv 2)]) = None.
Proof. repeat split; reflexivity. Qed.

Lemma existing_predicates_win_witness :
  let self := Query.init NumericData (Some [("pv", pv 2)])
                (Some [("pv", pv 2)]) None in
  let kwargs := [("pv", pv 4); ("id", PInt 1)] in
  (∃ new merged,
     Query.filter self kwargs = Ok new ∧
     Query.fargs new = Some merged ∧
     dict_get "pv" merged = Some (pv 2) ∧
     ∀ k', dict_get k' [("pv", pv 2)] = None →
           dict_get k' merged = dict_get k' kwargs) ∧
  (∃ new merged,
     Query.exclude self kwargs = Ok new ∧
     Query.eargs new = Some merged ∧
     dict_get "pv" merged = Some (pv 2) ∧
     ∀ k', dict_get k' [("pv", pv 2)] = None →
           dict_get k' merged = dict_get k' kwargs).
Proof.
  intros self kwargs.
  assert (Hdistinct : NoDup (map fst [("pv", pv 2)])).
  { repeat constructor. simpl. by intros ?%elem_of_nil. }
  destruct (existing_predicates_win self kwargs [("pv", pv 2)] "pv" (pv 2)
              Hdistinct eq_refl) as [Hfilter Hexclude].
  split; [exact (Hfilter eq_refl) | exact (Hexclude eq_refl)].
Defined.

Lemma cross_chaining_raises_witness :
  Query.filter (Query.Manager_exclude NumericData [("pv", pv 2)])
    [("id", PInt 1)] = Raise Query.none_not_iterable.
Proof.
  apply (proj1 (cross_chaining_raises
                  (Query.Manager_exclude NumericData [("pv", pv 2)])
                  [("id", PInt 1)])).
  reflexivity.
Defined.

(** C7, as stated, fails: the exclusion predicates of this query set are not
    empty, yet the unique positive lookup makes [buildquery] fetch the single
    object and the exclusion predicates never reach [cursor.query]. *)
Lemma exclusion_dropped_by_unique_lookup :
  let self := Query.init NumericData (Some [("id", PInt 4)])
                (Some [("pv", pv 2)]) None in
  truthy_dict (Query.eargs self) = true ∧
  Query.buildquery numeric_db self []
    = (Ok (Query.set_qset self
             (Query.svset (Query.make (PInt 4) [("pv", pv 2)]))),
       [Query.CallGetObject "id" (PInt 4)]).
Proof. split; vm_compute; reflexivity. Qed.

Lemma exclusion_never_short_circuits_witness :
  let self := Query.init NumericData (Some [("pv", pv 2)])
                (Some [("id", PInt 4)]) None in
  (∃ d, Query.Mapping [("id", PInt 4)] = Query.Mapping d ∧
        ∀ k, k ∈ map fst [("id", PInt 4)] → is_Some (dict_get k d)) ∧
  Query.buildquery numeric_db self []
    = (Ok (Query.set_qset self (Query.QIds [PInt 4])),
       [Query.CallQuery (Query.Mapping [("pv", pv 2)])
          (Some (Query.Mapping [("id", PInt 4)])) None]).
Proof.
  assert (Hpositive :
    Query.aggregate
      (Query.init NumericData (Some [("pv", pv 2)]) (Some [("id", PInt 4)])
         None)
      (Some [("pv", pv 2)]) true
    = Ok (false, Query.Mapping [("pv", pv 2)])) by reflexivity.
  assert (Hexclusion : [("id", PInt 4)] ≠ []) by discriminate.
  exact (exclusion_never_short_circuits NumericData [("pv", pv 2)]
           [("id", PInt 4)] None numeric_db [] (Query.Mapping [("pv", pv 2)])
           Hpositive Hexclusion).
Defined.

(** C8, as stated, fails: nothing is stored, so the unique lookup matches no
    instance, and [get] raises [ObjectNotFund], not the non-unique error. *)
Lemma get_without_match_on_unique_field :
  objects empty_db = [] ∧
  Query.get empty_db (Query.Manager_filter NumericData [("id", PInt 7)]) []
    = (Raise ObjectNotFund, [Query.CallGetObject "id" (PInt 7)]) ∧
  (Query.get empty_db (Query.Manager_filter NumericData [("id", PInt 7)]) []).1
    ≠ Raise Query.non_unique.
Proof.
  split; [reflexivity|].
  split; [vm_compute; reflexivity | vm_compute; discriminate].
Qed.

Lemma m2m_add_updates_both_sides_witness :
  ∃ links',
    Query.add Fixtures.groups (Fixtures.members_of 1%positive) 2%positive ∅
      = (Ok tt, links') ∧
    (2%positive) ∈ Query.members links' "group:1:members" ∧
    (1%positive) ∈ Query.members links' "group:2:members" ∧
    ∀ st, Query.members ∅ st ⊆ Query.members links' st.
Proof.
  assert (Hdistinct : 2%positive ≠ Query.instance (Fixtures.members_of 1%positive))
    by discriminate.
  exact (proj2 (proj2 (m2m_add_updates_both_sides Fixtures.groups
                         (Fixtures.members_of 1%positive) 2%positive ∅))
           eq_refl Hdistinct (Fixtures.members_of 2%positive) eq_refl).
Defined.

(** C3, as stated, fails: saved without a transaction, the invalid item
    has a local transaction opened for it on the backend, which counts it,
    before it is validated. *)
Lemma validation_follows_local_transaction :
  Base.save_object {| Fixtures.item_id := 3; Fixtures.item_ok := false |} None
    (([], 0%nat), [])
    = (Raise (FieldValueError "{}"),
       (([], 1%nat), [Base.OpLocalTransaction; Base.OpIsValid])) ∧
  Base.backend_operation Base.OpLocalTransaction = true ∧
  Base.local_transaction {| Fixtures.item_id := 3; Fixtures.item_ok := false |}
    (([] : list Fixtures.item), 0%nat) = (0%nat, ([], 1%nat)).
Proof. repeat split. Qed.

Lemma invalid_instance_not_saved_witness :
  Base.save_object {| Fixtures.item_id := 3; Fixtures.item_ok := false |}
    (Some 7%nat) (([], 2%nat), [])
    = (Raise (FieldValueError "{}"), (([], 2%nat), [Base.OpIsValid])) ∧
  Forall (fun o => Base.object_operation o = false) [Base.OpIsValid] ∧
  (∀ t, Some 7%nat = Some t →
        (([] : list Fixtures.item), 2%nat) = ([], 2%nat) ∧
        Forall (fun o => Base.backend_operation o = false) [Base.OpIsValid]).
Proof.
  exact (invalid_instance_not_saved
           {| Fixtures.item_id := 3; Fixtures.item_ok := false |}
           (Some 7%nat) (([] : list Fixtures.item), 2%nat) [] eq_refl).
Defined.

End Scenarios.

(** ** Further properties of query sets *)

Section QuerySetFacts.
Context {V DB : Type} {cursor : @Query.Cursor V DB}.
Implicit Types (meta : @Query.Meta V) (self : @Query.QuerySet V) (db : DB)
  (log : list (@Query.call V)).

(** X1: [buildquery] is memoized: once it has returned, running it again on
    the query set it left returns at once, with no further backend call. *)
Theorem buildquery_memoized db self log :
  match Query.buildquery db self log with
  | (Ok self', log') => Query.buildquery db self' log' = (Ok self', log')
  | (Raise _, _) => True
  end.
Proof.
  destruct (Query.buildquery db self log) as [[self'|e] log'] eqn:Hbuild;
    [|done].
  destruct (buildquery_sets_qset _ _ _ _ _ Hbuild) as [q Hq].
  unfold Query.buildquery. by rewrite Hq.
Qed.


(** X3: a query set made by [Manager.exclude] cannot be compiled: its [fargs]
    is [None] and [aggregate] calls [None.items()]; no backend call is
    made. *)
Theorem manager_exclude_cannot_be_built meta kwargs db log :
  Query.buildquery db (Query.Manager_exclude meta kwargs) log
    = (Raise Query.none_has_no_items, log) ∧
  Query.iter db (Query.Manager_exclude meta kwargs) log
    = (Raise Query.none_has_no_items, log).
Proof. split; reflexivity. Qed.

(** X4: on the ['all'] handle [count] asks the table for its size, while
    [get] takes the length of the string ['all'] and raises the non-unique
    error whatever the table holds. *)
Theorem all_handle_count_and_get db self log :
  let self := Query.set_qset self Query.QAll in
  Query.count db self log
    = (Ok (self, Query.table_size (Query._meta self) db),
       log ++ [Query.CallTableSize]) ∧
  Query.get db self log = (Raise Query.non_unique, log).
Proof. split; reflexivity. Qed.

(** X5: [Manager.all()] compiles to the empty mapping of clauses and makes
    one backend call, [cursor.query] without exclusion clauses. *)
Theorem manager_all_queries_everything meta db log :
  let self := Query.Manager_all meta in
  Query.buildquery db self log =
    (match Query.query meta (Query.Mapping []) None None db with
     | Ok q => Ok (Query.set_qset self q)
     | Raise e => Raise e
     end, log ++ [Query.CallQuery (Query.Mapping []) None None]).
Proof.
  intros self. subst self.
  unfold Query.buildquery, mbind, mret, Query.M_bind, Query.M_ret, Query.bind,
    Query.lift, Query.tell, Query.ret. simpl.
  by destruct (Query.query meta (Query.Mapping []) None None db).
Qed.

End QuerySetFacts.

(** ** Further properties of save_object *)

Section SaveObjectFacts.
Context {V Obj Txn DB : Type}.
Context {model : @Base.StdModel V Obj Txn DB}.
Context {backend : @Base.Backend Obj Txn DB}.

Ltac run_save :=
  unfold Base.save_object, mbind, mret, Base.M_bind, Base.M_ret, Base.bind,
    Base.tell, Base.run, Base.run_total, Base.raise, Base.ret; simpl.

(** The log reached is the initial one followed by operations none of which
    is a commit or the opening of a transaction. *)
Ltac close_log :=
  rewrite <- ?app_assoc; eexists; split; [reflexivity|];
  split; intros Hin;
  repeat (apply elem_of_cons in Hin as [Hin|Hin]; [discriminate|]);
  by apply elem_of_nil in Hin.

(** X6: a valid instance without an id, saved without a transaction, is
    given its id, written and committed in a local transaction; nothing is
    read back and no index is removed.  An error of the write or of the
    commit is passed on. *)
Theorem new_instance_saved (obj : Obj) (s : DB) (log : list Base.operation) :
  Base.is_valid obj = true →
  Base.truthy (Base.id obj) = false →
  let t := (Base.local_transaction obj s).1 in
  let s1 := (Base.local_transaction obj s).2 in
  let before_write :=
    log ++ [Base.OpLocalTransaction; Base.OpIsValid; Base.OpSaveObject] in
  match Base._save_object (Base.serialize_pk obj) t s1 with
  | (Raise e, s2) =>
      Base.save_object obj None (s, log) = (Raise e, (s2, before_write))
  | (Ok saved, s2) =>
      match Base.commit t s2 with
      | (Ok _, s3) =>
          Base.save_object obj None (s, log)
            = (Ok saved, (s3, before_write ++ [Base.OpCommit]))
      | (Raise e, s3) =>
          Base.save_object obj None (s, log)
            = (Raise e, (s3, before_write ++ [Base.OpCommit]))
      end
  end.
Proof.
  intros Hvalid Hnew t s1 before_write. subst t s1 before_write. run_save.
  destruct (Base.local_transaction obj s) as [t s1]. simpl.
  rewrite Hvalid, Hnew. simpl.
  rewrite <- !app_assoc. simpl.
  destruct (Base._save_object (Base.serialize_pk obj) t s1) as [[saved|e] s2];
    simpl; [|done].
  destruct (Base.commit t s2) as [[[]|e] s3]; simpl; by rewrite <- ?app_assoc.
Qed.

(** X7: with a transaction passed in, [save_object] neither opens a local
    transaction nor commits, whatever the instance and the backend do. *)
Theorem passed_transaction_not_committed (obj : Obj) (t : Txn) (s : DB)
    (log : list Base.operation) :
  ∃ ops, snd (snd (Base.save_object obj (Some t) (s, log))) = log ++ ops ∧
         (Base.OpCommit ∉ ops) ∧ (Base.OpLocalTransaction ∉ ops).
Proof.
  run_save.
  destruct (Base.is_valid obj); simpl; [|close_log].
  destruct (Base.truthy (Base.id obj)); simpl.
  - destruct (Base.previous obj s) as [[[|p0 pobj]|e] s1]; simpl;
      [| |close_log].
    + destruct (Base._save_object obj t s1) as [[saved|e] s2]; simpl;
        close_log.
    + destruct (Base._remove_indexes p0 t s1) as [[[]|e] s2]; simpl;
        [|close_log].
      destruct (Base._save_object obj t s2) as [[saved|e] s3]; simpl;
        close_log.
  - destruct (Base._save_object (Base.serialize_pk obj) t s)
      as [[saved|e] s2]; simpl; close_log.
Qed.

End SaveObjectFacts.

Lemma new_instance_saved_witness :
  Base.save_object {| Fixtures.item_id := 0; Fixtures.item_ok := true |} None
    ([], [])
    = (Ok {| Fixtures.item_id := 1; Fixtures.item_ok := true |},
       ([{| Fixtures.item_id := 1; Fixtures.item_ok := true |}],
        [Base.OpLocalTransaction; Base.OpIsValid; Base.OpSaveObject;
         Base.OpCommit])).
Proof.
  exact (new_instance_saved
           {| Fixtures.item_id := 0; Fixtures.item_ok := true |} [] []
           eq_refl eq_refl).
Defined.

(** ** Lookup names *)

Section SplitFacts.

Lemma split_dunder_dunder s :
  split_dunder (String "_" (String "_" s)) = EmptyString :: split_dunder s.
Proof. reflexivity. Qed.

Lemma split_dunder_char c s :
  ¬ (c = "_"%char ∧ ∃ s', s = String "_" s') →
  split_dunder (String c s) =
    match split_dunder s with
    | h :: t => String c h :: t
    | [] => [String c EmptyString]
    end.
Proof.
  intros Hno. destruct s as [|c' s]; [by destruct c as [[] [] [] [] [] [] [] []]|].
  destruct (decide (c = "_"%char)) as [->|Hc].
  - destruct (decide (c' = "_"%char)) as [->|Hc'].
    + exfalso. apply Hno. eauto.
    + destruct c' as [[] [] [] [] [] [] [] []]; try reflexivity.
      by exfalso.
  - destruct c as [[] [] [] [] [] [] [] []]; try reflexivity.
    by exfalso.
Qed.

Lemma split_dunder_nonempty s : split_dunder s ≠ [].
Proof.
  assert (H : ∀ s, split_dunder s ≠ [] ∧ ∀ c, split_dunder (String c s) ≠ []).
  { clear s. induction s as [|c' s [IH1 IH2]].
    - split; [done|]. intros c. rewrite split_dunder_char; [done|].
      by intros [_ [s' ?]].
    - split; [apply IH2|]. intros c.
      destruct (decide (c = "_"%char ∧ c' = "_"%char)) as [[-> ->]|Hno].
      + by rewrite split_dunder_dunder.
      + rewrite split_dunder_char.
        * by destruct (split_dunder (String c' s)).
        * intros [-> [s' [= -> _]]]. by apply Hno. }
  apply H.
Qed.

Lemma join_dunder_cons_char c h t :
  join_dunder (String c h :: t) = String c (join_dunder (h :: t)).
Proof. unfold join_dunder. simpl. by destruct t. Qed.

(** X8: splitting a lookup name on ['__'] loses nothing: joining the parts
    with ['__'] gives the name back. *)
Theorem split_dunder_join s : join_dunder (split_dunder s) = s.
Proof.
  assert (H : ∀ s, join_dunder (split_dunder s) = s ∧
                   ∀ c, join_dunder (split_dunder (String c s)) = String c s).
  { clear s. induction s as [|c' s [IH1 IH2]].
    - split; [done|]. intros c. rewrite split_dunder_char; [done|].
      by intros [_ [s' ?]].
    - split; [apply IH2|]. intros c.
      destruct (decide (c = "_"%char ∧ c' = "_"%char)) as [[-> ->]|Hno].
      + rewrite split_dunder_dunder.
        pose proof (split_dunder_nonempty s) as Hne.
        destruct (split_dunder s) as [|h t] eqn:E; [done|].
        unfold join_dunder in *. simpl in *. by rewrite IH1.
      + rewrite split_dunder_char.
        * pose proof (split_dunder_nonempty (String c' s)) as Hne.
          destruct (split_dunder (String c' s)) as [|h t] eqn:E; [done|].
          rewrite join_dunder_cons_char, <- E. by rewrite (IH2 c').
        * intros [-> [s' [= -> _]]]. by apply Hno. }
  apply H.
Qed.

End SplitFacts.

(** ** Query compilation, continued *)

Section CompilationFacts.
Context {V : Type}.
Implicit Types (meta : @Query.Meta V) (self : @Query.QuerySet V)
  (items res : dict V).

Lemma compiles_plain_resolve meta name value :
  Query.compiles_plain meta (name, value) = true →
  ∃ field value',
    Query.resolve meta name value false = Ok (field, value', false) ∧
    Query.index field = true.
Proof.
  unfold Query.compiles_plain. simpl.
  destruct (Query.resolve meta name value false) as [[[field v'] []]|e];
    try done.
  intros Hindex. by exists field, v'.
Qed.

Lemma aggregate_loop_all_plain meta filter items :
  Forall (fun kv => Query.compiles_plain meta kv = true) items →
  ∀ res, ∃ d,
    Query.aggregate_loop meta filter items false res
      = Ok (false, Query.Mapping d) ∧
    (∀ k, k ∉ map fst items → dict_get k d = dict_get k res) ∧
    (NoDup (map fst items) →
     ∀ name value, (name, value) ∈ items →
       ∃ field value',
         Query.resolve meta name value false = Ok (field, value', false) ∧
         dict_get name d = Some value').
Proof.
  induction 1 as [|[n v] items Hplain _ IH]; intros res.
  - exists res. split; [done|]. split; [done|].
    by intros _ name value ?%elem_of_nil.
  - destruct (compiles_plain_resolve _ _ _ Hplain) as (f & v' & Hres & Hidx).
    destruct (IH (dict_set n v' res)) as (d & Hrun & Hframe & Hvalues).
    exists d. simpl. rewrite Hres, Hidx. split; [exact Hrun|]. split.
    + intros k Hk. rewrite Hframe.
      * apply dict_get_set_ne. intros ->. apply Hk. left.
      * intros Hin. apply Hk. by right.
    + intros [Hn Hnd]%NoDup_cons name value [[= -> ->]|Hin]%elem_of_cons.
      * exists f, v'. split; [done|].
        rewrite Hframe by done. apply dict_get_set_eq.
      * by apply Hvalues.
Qed.

(** X9: when every predicate compiles to a plain index clause and the names
    are distinct, [aggregate] returns, unique flag unset, a mapping that
    holds exactly the predicate names, each with its converted value
    ([serialize] for a plain lookup, [hash] for an [__in] lookup). *)
Theorem aggregate_compiles_all self filter items :
  Forall (fun kv => Query.compiles_plain (Query._meta self) kv = true) items →
  NoDup (map fst items) →
  ∃ d,
    Query.aggregate self (Some items) filter = Ok (false, Query.Mapping d) ∧
    (∀ k, k ∉ map fst items → dict_get k d = None) ∧
    (∀ name value, (name, value) ∈ items →
       ∃ field value',
         Query.resolve (Query._meta self) name value false
           = Ok (field, value', false) ∧
         dict_get name d = Some value').
Proof.
  intros Hplain Hnd.
  destruct (aggregate_loop_all_plain _ filter _ Hplain []) as (d & ? & ? & ?).
  exists d. unfold Query.aggregate. auto.
Qed.

(** X10: when every predicate iterated before it compiles to a plain index
    clause (it resolves, its field is not unique and is an index),
    [aggregate] reports the error of the first predicate that does not
    compile: the error of its resolution (unknown field, nested lookup), or
    "not an index" when it resolves without the unique flag to a field that
    is not an index; predicates after it are not looked at.  The condition
    on the earlier predicates matters: after a unique one the loop has
    returned (inclusion) or keeps the unique flag (exclusion). *)
Theorem aggregate_first_error self filter (pre post : dict V) name value e :
  Forall (fun kv => Query.compiles_plain (Query._meta self) kv = true) pre →
  Query.resolve (Query._meta self) name value false = Raise e ∨
  (∃ field value',
     Query.resolve (Query._meta self) name value false
       = Ok (field, value', false) ∧
     Query.index field = false ∧ e = Query.not_an_index name) →
  Query.aggregate self (Some (pre ++ (name, value) :: post)) filter = Raise e.
Proof.
  intros Hpre Hbad. unfold Query.aggregate.
  destruct (aggregate_loop_plain_prefix (Query._meta self) filter pre
              ((name, value) :: post) Hpre []) as [res' ->].
  simpl. destruct Hbad as [-> | (f & v' & -> & -> & ->)]; done.
Qed.

Lemma aggregate_loop_shape meta items : ∀ res,
  match Query.aggregate_loop meta true items false res with
  | Ok (true, Query.Mapping _) | Ok (false, Query.Pair _ _) => False
  | _ => True
  end.
Proof.
  induction items as [|[name value] items IH]; intros res; simpl; [done|].
  destruct (Query.resolve meta name value false) as [[[f v'] []]|e];
    try done.
  destruct (Query.index f); [apply IH | done].
Qed.

(** X11: compiling positive predicates returns either the unique flag with a
    [(name, value)] pair or no flag with a mapping, never a mix; hence
    [fargs[0]] in [buildquery] is only ever applied to a pair. *)
Theorem aggregate_flag_matches_shape self kwargs :
  match Query.aggregate self kwargs true with
  | Ok (true, Query.Mapping _) | Ok (false, Query.Pair _ _) => False
  | _ => True
  end.
Proof.
  destruct kwargs as [items|]; [|done]. apply aggregate_loop_shape.
Qed.

End CompilationFacts.

(** ** Backend calls of a query set *)

Section CallFacts.
Context {V DB : Type} {cursor : @Query.Cursor V DB}.
Implicit Types (self : @Query.QuerySet V) (db : DB)
  (log : list (@Query.call V)).

Ltac run_query :=
  unfold Query.buildquery, Query.get, Query.items, Query.iter, Query.count,
    mbind, mret, Query.M_bind, Query.M_ret, Query.bind, Query.lift,
    Query.tell, Query.ret, Query.raise;
  cbn [Query.qset Query.init Query.fargs Query.eargs Query._meta
       Query.filter_sets Query._seq].

(** The calls of [buildquery], case by case. *)
Lemma buildquery_calls db self log :
  ∃ ops,
    (Query.buildquery db self log).2 = log ++ ops ∧
    Results.build_calls ops ∧
    (is_Some (Query.qset self) → ops = []) ∧
    (∀ e, Query.aggregate self (Query.fargs self) true = Raise e → ops = []) ∧
    (∀ fa e,
       Query.aggregate self (Query.fargs self) true = Ok (false, fa) →
       truthy_dict (Query.eargs self) = true →
       Query.aggregate self (Query.eargs self) false = Raise e →
       ops = []) ∧
    (∀ c, c ∈ ops → Results.fetches_data c = true →
          ∃ name value,
            c = Query.CallGetObject name value ∧
            Query.qset self = None ∧
            Query.aggregate self (Query.fargs self) true
              = Ok (true, Query.Pair name value)).
Proof.
  unfold Results.build_calls. run_query.
  destruct (Query.qset self) as [q|] eqn:Hq.
  { exists []. split; [by rewrite app_nil_r|].
    split; [by left|]. repeat split; try done. by intros c ?%elem_of_nil. }
  destruct (Query.aggregate self (Query.fargs self) true) as [[[] fa]|e]
    eqn:Hfargs; simpl.
  - destruct fa as [d|name value].
    + exists []. split; [by rewrite app_nil_r|]. split; [by left|].
      repeat split; try done; try by intros [? ?].
      by intros c ?%elem_of_nil.
    + exists [Query.CallGetObject name value].
      split; [by destruct (Query.get_object _ _ _ _)|].
      split; [right; left; eauto|].
      repeat split; try done; try by intros [? ?].
      intros c ->%list_elem_of_singleton _. eauto.
  - destruct (truthy_dict (Query.eargs self)) eqn:Heargs.
    + destruct (Query.aggregate self (Query.eargs self) false)
        as [[u ea]|e] eqn:Hea; simpl.
      * eexists [_]. split; [by destruct (Query.query _ _ _ _ _)|].
        split; [right; right; eauto|].
        repeat split; try done; try by intros [? ?].
        by intros c ->%list_elem_of_singleton.
      * exists []. split; [by rewrite app_nil_r|]. split; [by left|].
        repeat split; try done. by intros c ?%elem_of_nil.
    + simpl. eexists [_]. split; [by destruct (Query.query _ _ _ _ _)|].
      split; [right; right; eauto|].
      repeat split; try done; try by intros [? ?].
      by intros c ->%list_elem_of_singleton.
  - exists []. split; [by rewrite app_nil_r|]. split; [by left|].
    repeat split; try done. by intros c ?%elem_of_nil.
Qed.

(** X27: [buildquery] only ever extends the call log, by at most one backend
    call, [get_object] or [query]; it makes no call when the handle is
    already set, when compiling the positive predicates raises, or when
    compiling the exclusions raises. *)
Theorem buildquery_one_call db self log :
  ∃ ops,
    (Query.buildquery db self log).2 = log ++ ops ∧
    Results.build_calls ops ∧
    (is_Some (Query.qset self) → ops = []) ∧
    (∀ e, Query.aggregate self (Query.fargs self) true = Raise e → ops = []) ∧
    (∀ fa e,
       Query.aggregate self (Query.fargs self) true = Ok (false, fa) →
       truthy_dict (Query.eargs self) = true →
       Query.aggregate self (Query.eargs self) false = Raise e →
       ops = []).
Proof.
  destruct (buildquery_calls db self log)
    as (ops & Hlog & Hops & Hset & Hfargs & Heargs & _).
  by exists ops.
Qed.

(** X12: the backend calls of [count] are those of [buildquery] followed by
    at most the table-size call, which is made exactly when the handle is
    ['all'].  The only call among them that reads stored instance data is
    the [get_object] of a unique lookup, which [count] does make: no
    [items], [mget] or [hash.get] call is made. *)
Theorem count_backend_calls db self log :
  ∃ built extra,
    (Query.buildquery db self log).2 = log ++ built ∧
    Results.build_calls built ∧
    (Query.count db self log).2 = log ++ built ++ extra ∧
    extra = match Query.buildquery db self log with
            | (Ok self', _) =>
                match Query.qset self' with
                | Some Query.QAll => [Query.CallTableSize]
                | _ => []
                end
            | (Raise _, _) => []
            end ∧
    Forall (fun c => Results.fetches_data c = true →
                     ∃ name value,
                       c = Query.CallGetObject name value ∧
                       Query.qset self = None ∧
                       Query.aggregate self (Query.fargs self) true
                         = Ok (true, Query.Pair name value))
           (built ++ extra) ∧
    (∀ name value,
       Query.qset self = None →
       Query.aggregate self (Query.fargs self) true
         = Ok (true, Query.Pair name value) →
       built = [Query.CallGetObject name value]).
Proof.
  destruct (buildquery_calls db self log)
    as (ops & Hlog & Hops & _ & _ & _ & Hfetch).
  exists ops.
  assert (Hunique : ∀ name value,
    Query.qset self = None →
    Query.aggregate self (Query.fargs self) true
      = Ok (true, Query.Pair name value) →
    ops = [Query.CallGetObject name value]).
  { intros name value Hq Hfa. revert Hlog. run_query. rewrite Hq, Hfa. simpl.
    destruct (Query.get_object _ _ _ _); simpl; intros Hlog;
      by apply app_inv_head in Hlog. }
  unfold Query.count, mbind, Query.M_bind, Query.bind.
  destruct (Query.buildquery db self log) as [[self'|e] log'] eqn:Hbuild;
    simpl in Hlog; subst log'.
  - destruct (Query.qset self') as [[r| |ids]|]; simpl.
    2:{ exists [Query.CallTableSize].
        repeat split; try done; [by rewrite app_assoc|].
        apply Forall_app. split; [|by repeat constructor].
        apply Forall_forall. intros c Hc. by apply Hfetch. }
    all: exists []; rewrite app_nil_r; repeat split; try done;
      apply Forall_forall; intros c Hc; by apply Hfetch.
  - exists []. rewrite app_nil_r. repeat split; try done.
    apply Forall_forall. intros c Hc. by apply Hfetch.
Qed.

Lemma izip_fst_prefix {A B} (l : list A) (l' : list B) :
  map fst (Query.izip l l') = take (length l') l.
Proof.
  revert l'. induction l as [|a l IH]; intros [|b l']; simpl; try done.
  by rewrite IH.
Qed.

(** On a collection of ids [items] yields instances in the order of the
    ids, each carrying its id; when [mget] returns fewer values than there
    are ids the remaining ids yield nothing. *)
Lemma items_follow_ids db self ids log :
  let self := Query.set_qset self (Query.QIds ids) in
  ∃ els,
    Query.items db self log = (Ok (self, els), log ++ [Query.CallTableMget ids]) ∧
    map Query.inst_id els
      = take (length (Query.table_mget (Query._meta self) ids db)) ids.
Proof.
  intros self'. eexists. split; [reflexivity|].
  rewrite <- izip_fst_prefix.
  rewrite map_map. apply map_ext. by intros [a b].
Qed.

Lemma set_seq_cached self l :
  Query._seq self = Some l → Query.set_seq self l = self.
Proof. destruct self. simpl. by intros ->. Qed.

(** The length hint on a query set whose handle is set: one table-size call
    on ['all'], no call otherwise. *)
Lemma length_hint_on_handle db self log q :
  Query.qset self = Some q →
  Results.length_hint db self log
    = (match q with
       | Query.QAll =>
           if (Query.table_size (Query._meta self) db <? 0)%Z
           then Raise Results.negative_length else Ok self
       | _ => Ok self
       end,
       log ++ match q with
              | Query.QAll => [Query.CallTableSize]
              | _ => []
              end).
Proof.
  intros Hq. unfold Results.length_hint. do 2 run_query. rewrite Hq. simpl.
  rewrite Hq. destruct q as [r| |ids]; simpl.
  - by rewrite app_nil_r.
  - by destruct (_ <? 0)%Z.
  - rewrite app_nil_r.
    by destruct (Z.ltb_spec (Z.of_nat (length ids)) 0); [lia|].
Qed.

(** [_unwind] when the cache is unset or empty. *)
Lemma unwind_uncached db self log :
  Results.truthy_seq (Query._seq self) = false →
  Results._unwind db self log
    = match Query.iter db self log with
      | (Ok (s1, l), log1) =>
          match Results.length_hint db s1 log1 with
          | (Ok s2, log2) => (Ok (Query.set_seq s2 l, l), log2)
          | (Raise e, log2) => (Raise e, log2)
          end
      | (Raise e, log1) => (Raise e, log1)
      end.
Proof.
  intros Htruthy. unfold Results._unwind, Results.list_self.
  rewrite Htruthy. unfold Query.bind, Query.ret.
  destruct (Query.iter db self log) as [[[s1 l]|e] log1]; [|done].
  cbn [fst snd]. by destruct (Results.length_hint db s1 log1) as [[s2|e] log2].
Qed.

(** [__iter__] leaves the handle set and the list in the cache. *)
Lemma iter_leaves_cache db self log s1 l log1 :
  Query._seq self = None ∨ is_Some (Query.qset self) →
  Query.iter db self log = (Ok (s1, l), log1) →
  is_Some (Query.qset s1) ∧ Query._seq s1 = Some l.
Proof.
  intros Hstate. unfold Query.iter.
  destruct (Query._seq self) as [l0|] eqn:Hseq.
  - unfold Query.ret. intros [= <- <- _].
    by destruct Hstate as [?|?].
  - unfold Query.items.
    unfold mbind, mret, Query.M_bind, Query.M_ret, Query.bind.
    destruct (Query.buildquery db self log) as [[s0|e] log0] eqn:Hb; [|done].
    apply buildquery_sets_qset in Hb as [q0 Hq0]. rewrite Hq0.
    destruct q0; simpl; unfold Query.ret; intros [= <- <- _]; simpl; eauto.
Qed.

(** X13: on a query set whose cache, when filled, was filled through its
    handle, [_unwind] runs the query at most once: repeating it returns the
    same list and leaves the query set as it is, without compiling, querying
    or reading instances again.  The repeat is free of backend calls when
    the list is not empty; on an empty list [list(self)] is taken again, and
    its length hint makes one table-size call when the handle is ['all'],
    none otherwise. *)
Theorem unwind_runs_once db self log :
  Query._seq self = None ∨ is_Some (Query.qset self) →
  match Results._unwind db self log with
  | (Ok (self', l), log') =>
      Results._unwind db self' log'
        = (Ok (self', l),
           log' ++ match l, Query.qset self' with
                   | [], Some Query.QAll => [Query.CallTableSize]
                   | _, _ => []
                   end)
  | (Raise _, _) => True
  end.
Proof.
  intros Hstate.
  destruct (Results.truthy_seq (Query._seq self)) eqn:Htruthy.
  - unfold Results._unwind at 1. rewrite Htruthy. unfold Query.ret.
    unfold Results._unwind. rewrite Htruthy. unfold Query.ret.
    destruct (Query._seq self) as [[|a l]|]; try done.
    simpl. by rewrite app_nil_r.
  - rewrite unwind_uncached by done.
    destruct (Query.iter db self log) as [[[s1 l]|e] log1] eqn:Hiter; [|done].
    destruct (iter_leaves_cache db self log s1 l log1 Hstate Hiter)
      as [[q Hq] Hseq].
    rewrite (length_hint_on_handle db s1 log1 q Hq).
    assert (Hagain : ∀ log',
      l = [] →
      Results._unwind db s1 log'
        = match Results.length_hint db s1 log' with
          | (Ok s2, log2) => (Ok (Query.set_seq s2 l, l), log2)
          | (Raise e, log2) => (Raise e, log2)
          end).
    { intros log' ->. rewrite unwind_uncached by by rewrite Hseq.
      unfold Query.iter. by rewrite Hseq. }
    assert (Hcached : ∀ a l0 log',
      l = a :: l0 → Results._unwind db s1 log' = (Ok (s1, l), log' ++ [])).
    { intros a l0 log' ->. unfold Results._unwind. rewrite Hseq. simpl.
      by rewrite app_nil_r. }
    destruct q as [r| |ids].
    + rewrite (set_seq_cached s1 l Hseq), Hq.
      destruct l as [|a l0]; [|by eapply Hcached].
      rewrite Hagain, (length_hint_on_handle db s1 _ _ Hq) by done.
      by rewrite (set_seq_cached s1 [] Hseq).
    + destruct (Query.table_size (Query._meta s1) db <? 0)%Z eqn:Hsize;
        [done|].
      rewrite (set_seq_cached s1 l Hseq), Hq.
      destruct l as [|a l0]; [|by eapply Hcached].
      rewrite Hagain, (length_hint_on_handle db s1 _ _ Hq), Hsize by done.
      by rewrite (set_seq_cached s1 [] Hseq).
    + rewrite (set_seq_cached s1 l Hseq), Hq.
      destruct l as [|a l0]; [|by eapply Hcached].
      rewrite Hagain, (length_hint_on_handle db s1 _ _ Hq) by done.
      by rewrite (set_seq_cached s1 [] Hseq).
Qed.

End CallFacts.

(** ** Sequence access and deletion *)

Section SequenceFacts.
Context {V DB : Type} {cursor : @Query.Cursor V DB}.
Implicit Types (self : @Query.QuerySet V) (db : DB)
  (log : list (@Query.call V)).

Lemma list_index_spec {A} (l : list A) (index : Z) :
  let n := Z.of_nat (length l) in
  ((0 ≤ index < n)%Z →
   ∃ a, l !! Z.to_nat index = Some a ∧ Results.list_index l index = Ok a) ∧
  ((- n ≤ index < 0)%Z →
   ∃ a, l !! Z.to_nat (n + index) = Some a ∧
        Results.list_index l index = Ok a) ∧
  ((index < - n ∨ n ≤ index)%Z →
   Results.list_index l index = Raise Results.list_index_error).
Proof.
  intros n. unfold Results.list_index. fold n.
  assert (Hget : ∀ j, (0 ≤ j < n)%Z → ∃ a, l !! Z.to_nat j = Some a).
  { intros j Hj. apply lookup_lt_is_Some. subst n. lia. }
  split; [|split].
  - intros Hin. destruct (Hget index Hin) as [a Ha]. exists a.
    split; [done|].
    replace (index <? 0)%Z with false by (symmetry; apply Z.ltb_ge; lia).
    replace (index <? 0)%Z with false by (symmetry; apply Z.ltb_ge; lia).
    replace (n <=? index)%Z with false by (symmetry; apply Z.leb_gt; lia).
    simpl. by rewrite Ha.
  - intros Hin. destruct (Hget (n + index)%Z ltac:(lia)) as [a Ha].
    exists a. split; [done|].
    replace (index <? 0)%Z with true by (symmetry; apply Z.ltb_lt; lia).
    replace (index + n <? 0)%Z with false by (symmetry; apply Z.ltb_ge; lia).
    replace (n <=? index + n)%Z with false by (symmetry; apply Z.leb_gt; lia).
    simpl. by rewrite (Z.add_comm index n), Ha.
  - intros [Hlow|Hhigh].
    + replace (index <? 0)%Z with true by (symmetry; apply Z.ltb_lt; lia).
      by replace (index + n <? 0)%Z with true
        by (symmetry; apply Z.ltb_lt; lia).
    + replace (index <? 0)%Z with false by (symmetry; apply Z.ltb_ge; lia).
      replace (index <? 0)%Z with false by (symmetry; apply Z.ltb_ge; lia).
      replace (n <=? index)%Z with true by (symmetry; apply Z.leb_le; lia).
      done.
Qed.

(** X14: [qs[index]] materializes the whole result, then indexes the list:
    an index from 0 to len-1 gives that element, one from -len to -1 counts
    from the end, any other raises [IndexError] (every index does on an
    empty result); an error of the query is passed on. *)
Theorem getitem_bounds db self index log :
  match Results._unwind db self log with
  | (Raise e, log') => Results.getitem db self index log = (Raise e, log')
  | (Ok (self', l), log') =>
      let n := Z.of_nat (length l) in
      ((0 ≤ index < n)%Z →
       ∃ a, l !! Z.to_nat index = Some a ∧
            Results.getitem db self index log = (Ok (self', a), log')) ∧
      ((- n ≤ index < 0)%Z →
       ∃ a, l !! Z.to_nat (n + index) = Some a ∧
            Results.getitem db self index log = (Ok (self', a), log')) ∧
      ((index < - n ∨ n ≤ index)%Z →
       Results.getitem db self index log
         = (Raise Results.list_index_error, log'))
  end.
Proof.
  unfold Results.getitem, Query.bind, Query.lift, Query.ret.
  destruct (Results._unwind db self log) as [[[self' l]|e] log']; [|done].
  cbn [fst snd]. destruct (list_index_spec l index) as (Hpos & Hneg & Hout).
  split; [|split].
  - intros Hin. destruct (Hpos Hin) as (a & Ha & ->). eauto.
  - intros Hin. destruct (Hneg Hin) as (a & Ha & ->). eauto.
  - intros Hin. by rewrite (Hout Hin).
Qed.

Section Delete.
Variable instance_delete : @Query.Instance V -> DB -> result Z * DB.

Lemma delete_loop_counts els : ∀ T db,
  (∀ el db, (instance_delete el db).1 = Ok 1%Z) →
  ∃ db', Results.delete_loop instance_delete els T db
           = (Ok (T + Z.of_nat (length els))%Z, db').
Proof.
  induction els as [|el els IH]; intros T db Hone; simpl.
  - exists db. by rewrite Z.add_0_r.
  - pose proof (Hone el db) as Hel.
    destruct (instance_delete el db) as [r db1]. simpl in Hel. subst r.
    destruct (IH (T + 1)%Z db1 Hone) as [db' ->].
    exists db'. f_equal. f_equal. lia.
Qed.

(** X15: when deleting an instance always reports one object removed, as
    [delete_object] does, [QuerySet.delete] returns the number of instances
    of the materialized result (0 for an empty one); when the query itself
    raises, nothing is deleted. *)
Theorem delete_counts_instances db self log :
  (∀ el db, (instance_delete el db).1 = Ok 1%Z) →
  match Query.iter db self log with
  | (Ok (self', els), log') =>
      ∃ db', Results.delete instance_delete self db log
               = (Ok (self', Z.of_nat (length els)), db', log')
  | (Raise e, log') =>
      Results.delete instance_delete self db log = (Raise e, db, log')
  end.
Proof.
  intros Hone. unfold Results.delete.
  destruct (Query.iter db self log) as [[[self' els]|e] log']; [|done].
  destruct (delete_loop_counts els 0 db Hone) as [db' ->].
  by exists db'.
Qed.

(** The deletion loop has no rollback: when the delete of an element
    raises, the loop stops with that error in the database state reached
    after the deletions before it, and the elements after it are not
    touched. *)
Lemma delete_stops_at_first_error (done_ rest : list (@Query.Instance V))
    el T db :
  match Results.delete_loop instance_delete done_ T db with
  | (Ok T', db') =>
      match instance_delete el db' with
      | (Raise e, db'') =>
          Results.delete_loop instance_delete (done_ ++ el :: rest) T db
            = (Raise e, db'')
      | (Ok n, db'') =>
          Results.delete_loop instance_delete (done_ ++ el :: rest) T db
            = Results.delete_loop instance_delete rest (T' + n)%Z db''
      end
  | (Raise e, db') =>
      Results.delete_loop instance_delete (done_ ++ el :: rest) T db
        = (Raise e, db')
  end.
Proof.
  revert T db. induction done_ as [|d done_ IH]; intros T db; simpl.
  - by destruct (instance_delete el db) as [[n|e] db''].
  - destruct (instance_delete d db) as [[n|e] db1]; [apply IH | done].
Qed.

End Delete.
End SequenceFacts.

(** ** Managers *)

Section ManagerFacts.
Context {V DB : Type} {cursor : @Query.Cursor V DB}.
Implicit Types (db : DB) (log : list (@Query.call V)) (kwargs : dict V).

(** X16: a related manager bound to an object always filters on that
    object: the new query set is on the related model and binds the field
    name to the bound object, replacing a value the caller gave for that
    name and keeping the caller's other predicates; it has no [eargs], so
    [exclude] on it raises.  An unbound manager raises instead. *)
Theorem related_filter_binds_object (self : @Relations.RelatedManager V)
    kwargs (o : V) :
  (∃ qs merged,
     Relations.filter (Relations.__get__ self (Some o)) kwargs = Ok qs ∧
     Query._meta qs = Relations.to self ∧
     Query.fargs qs = Some merged ∧
     dict_get (Relations.fieldname self) merged = Some o ∧
     (∀ k, k ≠ Relations.fieldname self →
           dict_get k merged = dict_get k kwargs) ∧
     ∀ kw, Query.exclude qs kw = Raise Query.none_not_iterable) ∧
  Relations.filter (Relations.__get__ self None) kwargs
    = Raise Relations.no_object.
Proof.
  split; [|done]. eexists _, _. split; [reflexivity|].
  repeat split.
  - apply dict_get_set_eq.
  - intros k Hk. apply dict_get_set_ne. simpl. by intros <-.
Qed.

(** X17: a query set made by [M2MRelatedManager.filter] carries the link set
    of the manager as restriction, and [buildquery] hands it to
    [cursor.query]; but a unique short-circuit fetches the object without
    the restriction, and chaining [filter] returns a query set that has
    lost it. *)
Theorem m2m_filter_restriction (to_meta : @Query.Meta V)
    (self : Query.M2MRelatedManager) kwargs db log :
  let qs := Relations.m2m_filter to_meta self kwargs in
  let sets := Some [Query.st self] in
  match Query.aggregate qs (Some kwargs) true with
  | Ok (false, F) =>
      Query.buildquery db qs log =
        (match Query.query to_meta F None sets db with
         | Ok q => Ok (Query.set_qset qs q)
         | Raise e => Raise e
         end, log ++ [Query.CallQuery F None sets])
  | Ok (true, Query.Pair name value) =>
      Query.buildquery db qs log =
        (match Query.get_object to_meta name value db with
         | Ok r => Ok (Query.set_qset qs (Query.svset r))
         | Raise e => Raise e
         end, log ++ [Query.CallGetObject name value])
  | Ok (true, Query.Mapping _) => False
  | Raise e => Query.buildquery db qs log = (Raise e, log)
  end ∧
  ∀ kw, ∃ qs', Query.filter qs kw = Ok qs' ∧ Query.filter_sets qs' = None.
Proof.
  intros qs sets. split; [|by eexists].
  assert (Hshape : match Query.aggregate qs (Some kwargs) true with
                   | Ok (true, Query.Mapping _)
                   | Ok (false, Query.Pair _ _) => False
                   | _ => True
                   end) by apply aggregate_loop_shape.
  unfold Query.buildquery, mbind, mret, Query.M_bind, Query.M_ret,
    Query.bind, Query.lift, Query.tell, Query.ret, Query.raise.
  cbn [Query.qset Query.init Query.fargs Query.eargs Query._meta
       Query.filter_sets qs Relations.m2m_filter truthy_dict].
  fold qs.
  destruct (Query.aggregate qs (Some kwargs) true) as [[[] [d|name value]]|e];
    try done.
  - by destruct (Query.get_object to_meta name value db).
  - by destruct (Query.query to_meta (Query.Mapping d) None _ db).
Qed.

End ManagerFacts.

Section GetOrCreateFacts.
Context {V DB : Type} {cursor : @Query.Cursor V DB}.
Variable create : dict V -> DB -> result (@Query.Instance V) * DB.
Implicit Types (db : DB) (log : list (@Query.call V)) (kwargs : dict V).

(** X18: [get_or_create] creates an object only when compiling the lookup
    raised [ObjectNotFund] (the failed single-object fetch of a unique
    lookup).  A lookup that resolves to a collection of ids with no id, or
    with several, or to the ['all'] handle, raises the non-unique error and
    creates nothing; a lookup that resolves to one object returns it with
    [created = False] and leaves the database as it was. *)
Theorem get_or_create_creates_on_not_found (meta : @Query.Meta V) kwargs db
    log :
  let goc := Relations.get_or_create create meta kwargs db log in
  match Query.buildquery db (Query.Manager_filter meta kwargs) log with
  | (Ok self', log') =>
      match Query.qset self' with
      | Some (Query.svset r) => goc = (Ok (Query.GotInstance r, false), db, log')
      | Some (Query.QIds [id]) =>
          goc = (Ok (Query.GotStored (Query.hash_get (Query._meta self') id db),
                     false), db, log' ++ [Query.CallHashGet id])
      | Some (Query.QIds _) | Some Query.QAll =>
          goc = (Raise Query.non_unique, db, log')
      | None => False
      end
  | (Raise ObjectNotFund, log') =>
      goc = (match (create kwargs db).1 with
             | Ok res => Ok (Query.GotInstance res, true)
             | Raise e => Raise e
             end, (create kwargs db).2, log')
  | (Raise e, log') => goc = (Raise e, db, log')
  end.
Proof.
  intros goc. subst goc.
  unfold Relations.get_or_create, Query.Manager_get, Query.get, mbind,
    Query.M_bind, Query.bind.
  destruct (Query.buildquery db (Query.Manager_filter meta kwargs) log)
    as [[self'|e] log'] eqn:Hbuild.
  - destruct (buildquery_sets_qset _ _ _ _ _ Hbuild) as [q Hq]. rewrite Hq.
    destruct q as [r| |[|id [|id' l]]]; try done.
    unfold Query.len.
    assert (Hlen : (Z.of_nat (length (id :: id' :: l)) =? 1)%Z = false).
    { apply Z.eqb_neq. simpl length. lia. }
    by rewrite Hlen.
  - destruct e; try done.
    by destruct (create kwargs db) as [[res|e] db'].
Qed.

End GetOrCreateFacts.

(** ** The key-value facade *)

Section StoreFacts.
Context {S Ack : Type}.
Context {pickler : Store.Pickler} {backend : @Store.KeyValue S Ack}.
Implicit Types (s : S) (id key : string) (v default : Store.value).

Lemma get_of_raw id default s raw :
  Store._get id s = Ok (Some raw) → raw ≠ EmptyString →
  Store.get id default s = Ok (Store.loads raw).
Proof.
  intros Hget Hraw. unfold Store.get. rewrite Hget.
  by destruct raw.
Qed.

(** X19: round trip of [set] and [get]: on a backend whose [_get] returns
    what [_set] stored, a value that the pickler restores and does not
    serialize to the empty string is read back by [get], whatever the
    default. *)
Theorem set_get_round_trip id v default timeout s ack s' :
  (∀ id raw t s ack s',
     Store._set id raw t s = (Ok ack, s') →
     Store._get id s' = Ok (Some raw)) →
  Store.loads (Store.dumps v) = v →
  Store.dumps v ≠ EmptyString →
  Store.set id v timeout s = (Ok ack, s') →
  Store.get id default s' = Ok v.
Proof.
  intros Hlaw Hpickle Hraw Hset. unfold Store.set in Hset.
  rewrite (get_of_raw id default s' _ (Hlaw _ _ _ _ _ _ Hset) Hraw).
  by rewrite Hpickle.
Qed.

(** X20: [has_key] answers [False] in three cases: nothing is stored under
    the key, the stored string is empty, or the stored string unpickles to
    [None]; in each of them [incr] and [decr] raise [ValueError] and write
    nothing. *)
Theorem has_key_false_cases key s :
  (Store.has_key key s = Ok false ↔
     Store._get key s = Ok None ∨
     Store._get key s = Ok (Some EmptyString) ∨
     ∃ raw, Store._get key s = Ok (Some raw) ∧ Store.loads raw = Store.VNone) ∧
  (Store.has_key key s = Ok false →
   ∀ delta,
     Store.incr key delta s = (Store.Throw (Store.key_not_found key), s) ∧
     Store.decr key delta s = (Store.Throw (Store.key_not_found key), s)).
Proof.
  split.
  - unfold Store.has_key, Store.get.
    destruct (Store._get key s) as [[[|c raw]|]|e] eqn:Hget; simpl.
    + split; [auto | done].
    + split.
      * destruct (Store.loads (String c raw)) eqn:Hloads; try done.
        intros _. right. right. eauto.
      * intros [?|[?|(raw' & [= <-] & ->)]]; done.
    + split; [auto | done].
    + split; [done|]. by intros [?|[?|(raw' & ? & _)]].
  - intros Hno delta. unfold Store.decr, Store.incr, Store.__contains__.
    by rewrite Hno.
Qed.

(** X21: [incr] on a key that holds an integer writes the sum back through
    [set] without a timeout, so with timeout 0, and returns the sum; an error
    of the write is passed on.  On a key that holds a string it raises
    [TypeError] and writes nothing. *)
Theorem incr_writes_sum key delta s raw :
  Store._get key s = Ok (Some raw) →
  raw ≠ EmptyString →
  (∀ n, Store.loads raw = Store.VInt n →
     Store.incr key delta s =
       match Store._set key (Store.dumps (Store.VInt (n + delta))) 0 s with
       | (Ok _, s') => (Store.Return (Store.VInt (n + delta)), s')
       | (Raise e, s') => (Store.Throw (Store.Other e), s')
       end) ∧
  (∀ x, Store.loads raw = Store.VStr x →
     Store.incr key delta s
       = (Store.Throw (Store.Other Store.unsupported_operand), s)).
Proof.
  intros Hget Hraw.
  pose proof (get_of_raw key Store.VNone s raw Hget Hraw) as Hvalue.
  split; intros x Hloads;
    unfold Store.incr, Store.__contains__, Store.has_key;
    rewrite Hvalue, Hloads; simpl; [|done].
  unfold Store.set. simpl.
  by destruct (Store._set _ _ _ _) as [[ack|e] s'].
Qed.

(** X22: on a backend whose [_set] succeeds and whose [_get] returns what
    was stored, with a pickler that restores integers and never serializes
    one to the empty string, [decr] undoes [incr]: after both the key reads
    as the integer it held before. *)
Theorem incr_decr_round_trip key delta n s :
  (∀ id raw t s, ∃ ack s',
     Store._set id raw t s = (Ok ack, s') ∧
     Store._get id s' = Ok (Some raw)) →
  (∀ m, Store.loads (Store.dumps (Store.VInt m)) = Store.VInt m ∧
        Store.dumps (Store.VInt m) ≠ EmptyString) →
  Store.get key Store.VNone s = Ok (Store.VInt n) →
  ∃ s1 s2,
    Store.incr key delta s = (Store.Return (Store.VInt (n + delta)), s1) ∧
    Store.decr key delta s1 = (Store.Return (Store.VInt n), s2) ∧
    Store.get key Store.VNone s2 = Ok (Store.VInt n).
Proof.
  intros Hlaw Hpickle Hheld.
  assert (Hstep : ∀ s m d,
    Store.get key Store.VNone s = Ok (Store.VInt m) →
    ∃ s', Store.incr key d s = (Store.Return (Store.VInt (m + d)), s') ∧
          Store.get key Store.VNone s' = Ok (Store.VInt (m + d))).
  { intros s0 m d Hm.
    destruct (Hlaw key (Store.dumps (Store.VInt (m + d))) 0%Z s0)
      as (ack & s' & Hset & Hget).
    exists s'. split.
    - unfold Store.incr, Store.__contains__, Store.has_key. rewrite Hm.
      simpl. unfold Store.set. simpl. by rewrite Hset.
    - destruct (Hpickle (m + d)%Z) as [Hrestore Hraw].
      by rewrite (get_of_raw key Store.VNone s' _ Hget Hraw), Hrestore. }
  destruct (Hstep s n delta Hheld) as (s1 & Hincr & Hheld1).
  destruct (Hstep s1 (n + delta)%Z (- delta)%Z Hheld1) as (s2 & Hdecr & Hheld2).
  replace (n + delta + - delta)%Z with n in * by lia.
  by exists s1, s2.
Qed.

Lemma get_many_loop_spec keys : ∀ d s,
  (∀ k, k ∈ keys → ∃ v, Store.get k Store.VNone s = Ok v) →
  ∃ d', Store.get_many_loop keys d s = Ok d' ∧
        ∀ k, dict_get k d' =
               if decide (k ∈ keys) then
                 match Store.get k Store.VNone s with
                 | Ok Store.VNone | Raise _ => dict_get k d
                 | Ok v => Some v
                 end
               else dict_get k d.
Proof.
  induction keys as [|k0 keys IH]; intros d s Hok; simpl.
  - exists d. split; [done|]. intros k.
    destruct (decide (k ∈ [])) as [Hin|]; [by apply elem_of_nil in Hin | done].
  - destruct (Hok k0 ltac:(left)) as [v0 Hv0]. rewrite Hv0.
    assert (Hrest : ∀ k, k ∈ keys → ∃ v, Store.get k Store.VNone s = Ok v).
    { intros k Hk. apply Hok. by right. }
    assert (Hcase : ∀ d0,
      (∀ k, dict_get k d0 =
              if decide (k = k0) then
                match v0 with Store.VNone => dict_get k d | _ => Some v0 end
              else dict_get k d) →
      ∃ d', Store.get_many_loop keys d0 s = Ok d' ∧
            ∀ k, dict_get k d' =
                   if decide (k ∈ k0 :: keys) then
                     match Store.get k Store.VNone s with
                     | Ok Store.VNone | Raise _ => dict_get k d
                     | Ok v => Some v
                     end
                   else dict_get k d).
    { intros d0 Hd0. destruct (IH d0 s Hrest) as (d' & Hrun & Hd').
      exists d'. split; [done|]. intros k. rewrite Hd', Hd0.
      destruct (decide (k ∈ keys)) as [Hin|Hnin].
      - destruct (decide (k ∈ k0 :: keys)) as [_|Hno];
          [|exfalso; apply Hno; by right].
        destruct (Hrest k Hin) as [v Hv]. rewrite Hv.
        destruct v; try done.
        destruct (decide (k = k0)) as [->|]; [|done].
        rewrite Hv0 in Hv. by injection Hv as ->.
      - destruct (decide (k = k0)) as [->|Hne].
        + destruct (decide (k0 ∈ k0 :: keys)) as [_|Hno];
            [|exfalso; apply Hno; left].
          rewrite Hv0. by destruct v0.
        + destruct (decide (k ∈ k0 :: keys)) as [Hin|_]; [|done].
          by apply elem_of_cons in Hin as [?|?]. }
    destruct v0 as [|n|x].
    + apply Hcase. intros k. by destruct (decide (k = k0)).
    + apply Hcase. intros k. destruct (decide (k = k0)) as [->|Hne].
      * apply dict_get_set_eq.
      * apply dict_get_set_ne. congruence.
    + apply Hcase. intros k. destruct (decide (k = k0)) as [->|Hne].
      * apply dict_get_set_eq.
      * apply dict_get_set_ne. congruence.
Qed.

(** X23: when [_get] raises for none of the keys, [get_many] returns a
    dictionary that maps exactly the requested keys whose [get] is not
    [None], each to the value [get] returns for it; keys that are absent
    (or read as [None]) are left out. *)
Theorem get_many_gives_present_keys keys s :
  (∀ k, k ∈ keys → ∃ v, Store.get k Store.VNone s = Ok v) →
  ∃ d, Store.get_many keys s = Ok d ∧
       ∀ k, dict_get k d =
              if decide (k ∈ keys) then
                match Store.get k Store.VNone s with
                | Ok Store.VNone | Raise _ => None
                | Ok v => Some v
                end
              else None.
Proof.
  intros Hok. destruct (get_many_loop_spec keys [] s Hok) as (d & Hrun & Hd).
  exists d. split; [done|]. intros k. rewrite Hd. by destruct (decide _).
Qed.

End StoreFacts.

(** ** delete_object *)

Section DeletionFacts.
Context {Obj Txn S : Type}.
Context {backend : @Base.Backend Obj Txn S}.
Context {deleter : @Deletion.DeleteBackend Obj Txn S}.

(** X24: [delete_object] returns 1 or raises.  When it returns, the steps
    taken are the index removal followed by the deletion of the object,
    inside a transaction of its own that it commits when none was passed
    and without commit otherwise.  When the index removal raises, the object
    is not deleted and nothing is committed. *)
Theorem delete_object_order (obj : Obj) (txn : option Txn) (s : S)
    (log : list Deletion.step) :
  let r := Deletion.delete_object obj txn (s, log) in
  let opened := match txn with
                | None => [Deletion.StepTransaction]
                | Some _ => []
                end in
  let t := match txn with
           | None => (Deletion.transaction s).1
           | Some t => t
           end in
  let s0 := match txn with
            | None => (Deletion.transaction s).2
            | Some _ => s
            end in
  (r.1 = Ok 1%Z ∨ ∃ e, r.1 = Raise e) ∧
  (r.1 = Ok 1%Z →
   r.2.2 = log ++ opened ++
             [Deletion.StepRemoveIndexes; Deletion.StepDeleteObject] ++
             match txn with None => [Deletion.StepCommit] | Some _ => [] end) ∧
  (∀ e s1, Base._remove_indexes obj t s0 = (Raise e, s1) →
     r = (Raise e, (s1, log ++ opened ++ [Deletion.StepRemoveIndexes]))).
Proof.
  intros r opened t s0. subst r opened t s0. unfold Deletion.delete_object.
  destruct txn as [t|]; simpl.
  - destruct (Base._remove_indexes obj t s) as [[[]|e] s1]; simpl.
    + destruct (Deletion._delete_object obj t s1) as [[[]|e] s2]; simpl.
      * split; [by left|]. split; [|done].
        intros _. by rewrite <- app_assoc.
      * split; [right; eauto|]. split; done.
    + split; [right; eauto|]. split; [done|]. by intros ? ? [= <- <-].
  - destruct (Deletion.transaction s) as [t s0]. simpl.
    destruct (Base._remove_indexes obj t s0) as [[[]|e] s1]; simpl.
    + destruct (Deletion._delete_object obj t s1) as [[[]|e] s2]; simpl.
      * destruct (Base.commit t s2) as [[[]|e] s3]; simpl.
        -- split; [by left|]. split; [|done].
           intros _. by rewrite <- !app_assoc.
        -- split; [right; eauto|]. split; done.
      * split; [right; eauto|]. split; done.
    + split; [right; eauto|]. split; [done|].
      intros ? ? [= <- <-]. by rewrite <- app_assoc.
Qed.

End DeletionFacts.

(** ** The search engine *)

Section WordFacts.
Variable is_space : ascii -> bool.

Lemma split_aux_spec s :
  let '(w, ws) := Search.split_aux is_space s in
  Search.has_space is_space w = false ∧
  Forall (Search.clean_word is_space) ws ∧
  (w ++ foldr String.append EmptyString ws)%string
    = Search.without_spaces is_space s.
Proof.
  induction s as [|c s IH]; simpl; [done|].
  destruct (Search.split_aux is_space s) as [w ws].
  destruct IH as (Hw & Hws & Hcat).
  destruct (is_space c) eqn:Hc.
  - split; [done|]. destruct w as [|c' w].
    + split; [exact Hws | exact Hcat].
    + split; [|exact Hcat]. by constructor.
  - split; [simpl; by rewrite Hc|]. split; [exact Hws|].
    by rewrite <- Hcat.
Qed.

Lemma runs_after_space c s ws :
  is_space c = true →
  Search.maximal_runs is_space s ws →
  Search.maximal_runs is_space (String c s) ws.
Proof.
  intros Hc Hruns. destruct Hruns as [s Hs|sp w rest ws Hsp Hw Hrest Hruns].
  - apply Search.runs_blank. simpl. by rewrite Hc.
  - apply (Search.runs_word is_space (String c sp) w rest ws); try done.
    simpl. by rewrite Hc.
Qed.

(** The word under construction is followed by the end of the text or by
    whitespace, and the words after it are the maximal runs of what
    follows. *)
Lemma split_aux_runs s :
  let '(w, ws) := Search.split_aux is_space s in
  Search.has_space is_space w = false ∧
  ∃ rest, s = (w ++ rest)%string ∧
          Search.starts_blank is_space rest = true ∧
          Search.maximal_runs is_space rest ws.
Proof.
  induction s as [|c s IH]; simpl.
  - split; [done|]. exists EmptyString.
    repeat split. by apply Search.runs_blank.
  - destruct (Search.split_aux is_space s) as [w ws].
    destruct IH as (Hw & rest & -> & Hrest & Hruns).
    destruct (is_space c) eqn:Hc.
    + split; [done|]. exists (String c (w ++ rest)). simpl.
      split; [done|]. split; [done|].
      destruct w as [|c' w].
      * by apply runs_after_space.
      * apply (Search.runs_word is_space (String c EmptyString)
                 (String c' w) rest ws); try done.
        simpl. by rewrite Hc.
    + split; [simpl; by rewrite Hc|]. by exists rest.
Qed.

Lemma split_aux_blank s :
  Search.all_space is_space s = true →
  Search.split_aux is_space s = (EmptyString, []).
Proof.
  induction s as [|c s IH]; simpl; [done|].
  intros [Hc Hs]%andb_prop. by rewrite (IH Hs), Hc.
Qed.

Lemma split_aux_starts_blank rest :
  Search.starts_blank is_space rest = true →
  Search.split_aux is_space rest
    = (EmptyString, Search.split_text_default is_space rest).
Proof.
  unfold Search.split_text_default. destruct rest as [|c rest]; simpl;
    [done|].
  intros ->. by destruct (Search.split_aux is_space rest) as [w ws].
Qed.

Lemma split_aux_word w rest ws :
  Search.has_space is_space w = false →
  Search.split_aux is_space rest = (EmptyString, ws) →
  Search.split_aux is_space (w ++ rest) = (w, ws).
Proof.
  intros Hw Hrest. induction w as [|c w IH]; simpl; [done|].
  simpl in Hw. apply orb_false_elim in Hw as [Hc Hw].
  by rewrite (IH Hw), Hc.
Qed.

Lemma split_text_skips_blank sp text :
  Search.all_space is_space sp = true →
  Search.split_text_default is_space (sp ++ text)
    = Search.split_text_default is_space text.
Proof.
  induction sp as [|c sp IH]; simpl; [done|].
  intros [Hc Hsp]%andb_prop. rewrite <- (IH Hsp).
  unfold Search.split_text_default. simpl. rewrite Hc.
  by destruct (Search.split_aux is_space (sp ++ text)) as [w ws].
Qed.

Lemma maximal_runs_unique text ws :
  Search.maximal_runs is_space text ws →
  ws = Search.split_text_default is_space text.
Proof.
  induction 1 as [s Hs|sp w rest ws Hsp [Hne Hw] Hrest Hruns IH].
  - unfold Search.split_text_default. by rewrite split_aux_blank.
  - rewrite split_text_skips_blank by done.
    unfold Search.split_text_default at 1.
    rewrite (split_aux_word w rest _ Hw (split_aux_starts_blank rest Hrest)).
    rewrite <- IH. by destruct w.
Qed.

(** X25: the default [split_text] returns the maximal runs of characters
    that are not whitespace, from left to right, and nothing else: a list of
    words is the list of maximal runs of the text exactly when it is the
    list [split_text] returns.  In particular every word is non-empty and
    free of whitespace, and the words joined together are the text with its
    whitespace removed, so no other character is lost or reordered. *)
Theorem split_text_words text :
  Forall (Search.clean_word is_space) (Search.split_text_default is_space text) ∧
  foldr String.append EmptyString (Search.split_text_default is_space text)
    = Search.without_spaces is_space text ∧
  (∀ ws, Search.maximal_runs is_space text ws ↔
         ws = Search.split_text_default is_space text).
Proof.
  split; [|split].
  - unfold Search.split_text_default.
    pose proof (split_aux_spec text) as Hspec.
    destruct (Search.split_aux is_space text) as [w ws].
    destruct Hspec as (Hw & Hws & Hcat).
    destruct w as [|c w]; [done | by constructor].
  - unfold Search.split_text_default.
    pose proof (split_aux_spec text) as Hspec.
    destruct (Search.split_aux is_space text) as [w ws].
    destruct Hspec as (Hw & Hws & Hcat).
    by destruct w as [|c w].
  - intros ws. split; [apply maximal_runs_unique|].
    intros ->. unfold Search.split_text_default.
    pose proof (split_aux_runs text) as Hruns.
    destruct (Search.split_aux is_space text) as [w ws].
    destruct Hruns as (Hw & rest & -> & Hrest & Hruns).
    destruct w as [|c w]; [done|].
    by apply (Search.runs_word is_space EmptyString (String c w) rest ws).
Qed.

End WordFacts.

Section EngineFacts.
Variable split_text : string -> list string.
Implicit Types (ms : list (Search.middleware * bool)) (text : string).

Lemma words_from_text_snoc ms f fors c text for_search :
  Search.words_from_text split_text (ms ++ [(f, fors)])
    (Some (String c text)) for_search =
  let words := Search.words_from_text split_text ms (Some (String c text))
                 for_search in
  if for_search && negb fors then words else f words.
Proof. unfold Search.words_from_text. by rewrite fold_left_app. Qed.

(** X26: [words_from_text] returns no word for a missing or empty text,
    whatever the middleware; searching applies exactly the middleware
    registered for search, in registration order; a middleware added with
    [add_word_middleware] is applied last, to the words the ones before it
    produced, and an argument that is not callable leaves the engine as it
    was. *)
Theorem words_from_text_middleware ms text for_search :
  Search.words_from_text split_text ms None for_search = [] ∧
  Search.words_from_text split_text ms (Some EmptyString) for_search = [] ∧
  Search.words_from_text split_text ms (Some text) true
    = Search.words_from_text split_text
        (base.filter (fun mw => snd mw = true) ms) (Some text) false ∧
  (∀ f c,
     Search.words_from_text split_text
       (Search.add_word_middleware ms (Some f) for_search)
       (Some (String c text)) false
     = f (Search.words_from_text split_text ms (Some (String c text)) false)) ∧
  Search.add_word_middleware ms None for_search = ms.
Proof.
  split; [done|]. split; [done|]. split; [|split; [|done]].
  - destruct text as [|c text]; [done|].
    unfold Search.words_from_text. generalize (split_text (String c text)).
    induction ms as [|[f fors] ms IH]; intros words; [done|].
    rewrite filter_cons. destruct fors; cbn [snd]; case_decide; try done;
      cbn [fold_left fst snd andb negb]; apply IH.
  - intros f c. unfold Search.add_word_middleware.
    by rewrite words_from_text_snoc.
Qed.

(** The [stopwords] middleware of the documentation, added last and
    enabled for search, removes exactly the stop words from the words the
    engine produced before, when indexing and when searching, and keeps the
    other words in order. *)
Lemma stopwords_removed ms swords c text for_search :
  let engine := Search.add_word_middleware ms (Some (Search.stopwords swords))
                  true in
  let before := Search.words_from_text split_text ms (Some (String c text))
                  for_search in
  let words := Search.words_from_text split_text engine
                 (Some (String c text)) for_search in
  words = base.filter (fun w => w ∉ swords) before ∧
  ∀ w, w ∈ words ↔ w ∈ before ∧ w ∉ swords.
Proof.
  intros engine before words.
  assert (Hwords : words = base.filter (fun w => w ∉ swords) before).
  { subst words engine. unfold Search.add_word_middleware.
    rewrite words_from_text_snoc. simpl. by rewrite andb_false_r. }
  split; [exact Hwords|]. intros w. rewrite Hwords.
  rewrite list_elem_of_filter. tauto.
Qed.

End EngineFacts.

Section ProcessorFacts.

(** X28: [add_processor] keeps the list of processors free of duplicates:
    the processor is in the list afterwards, the processors already there
    keep their places, and adding a processor a second time changes
    nothing. *)
Theorem add_processor_no_duplicates (processors : list nat) (p : nat) :
  let added := Search.add_processor processors p in
  p ∈ added ∧
  processors `prefix_of` added ∧
  (NoDup processors → NoDup added) ∧
  Search.add_processor added p = added.
Proof.
  intros added. subst added.
  assert (Hin : p ∈ Search.add_processor processors p).
  { unfold Search.add_processor. case_decide; set_solver. }
  split; [exact Hin|]. split; [|split].
  - unfold Search.add_processor. case_decide; [done|].
    by apply prefix_app_r.
  - intros Hnd. unfold Search.add_processor. case_decide; [done|].
    apply NoDup_app. split; [done|]. split; [|apply NoDup_singleton].
    intros x Hx Hp. apply list_elem_of_singleton in Hp. by subst x.
  - unfold Search.add_processor at 1. by rewrite decide_True.
Qed.

End ProcessorFacts.

Section UpdateFacts.
Implicit Types (instances : list nat) (attrs : gmap nat (option nat))
  (clock : nat → nat).

Lemma index_loop_spec clock instances : ∀ tick attrs,
  let '(events, attrs') := Search.index_loop clock tick instances attrs in
  (∀ i, attrs' !! i = attrs !! i ∨
        (i ∈ instances ∧ attrs !! i = Some None ∧
         ∃ t, attrs' !! i = Some (Some t) ∧ Search.IndexItem i t ∈ events)) ∧
  (∀ i, i ∈ instances → attrs !! i = Some None →
        ∃ t, attrs' !! i = Some (Some t) ∧ Search.IndexItem i t ∈ events) ∧
  (∀ i t, Search.IndexItem i t ∈ events →
          i ∈ instances ∧ attrs !! i = Some None ∧
          attrs' !! i = Some (Some t)).
Proof.
  induction instances as [|r rest IH]; intros tick attrs; simpl.
  - split; [by left|]. split; [by intros i ?%elem_of_nil|].
    by intros i t ?%elem_of_nil.
  - unfold Search.needs_index. destruct (attrs !! r) as [[t0|]|] eqn:Hr.
    + specialize (IH tick attrs).
      destruct (Search.index_loop clock tick rest attrs) as [events attrs'].
      destruct IH as (Hframe & Hall & Hsound). split; [|split].
      * intros i. destruct (Hframe i) as [?|(? & ? & ?)]; [by left|].
        right. split; [by right | done].
      * intros i [->|Hin]%elem_of_cons Hnone; [congruence | by apply Hall].
      * intros i t Hi. destruct (Hsound i t Hi) as (? & ? & ?).
        split; [by right | done].
    + specialize (IH (Datatypes.S tick) (<[r := Some (clock tick)]> attrs)).
      destruct (Search.index_loop clock (Datatypes.S tick) rest
                  (<[r := Some (clock tick)]> attrs)) as [events attrs'].
      destruct IH as (Hframe & Hall & Hsound).
      assert (Hstamped : attrs' !! r = Some (Some (clock tick))).
      { destruct (Hframe r) as [->|(_ & Hno & _)].
        - by rewrite lookup_insert_eq.
        - by rewrite lookup_insert_eq in Hno. }
      assert (Hhead : ∃ t, attrs' !! r = Some (Some t) ∧
                Search.IndexItem r t
                  ∈ Search.SessionAdd r :: Search.IndexItem r (clock tick)
                      :: events).
      { exists (clock tick). split; [done|]. right. left. }
      split; [|split].
      * intros i. destruct (decide (i = r)) as [->|Hne].
        -- right. split; [left|]. split; done.
        -- destruct (Hframe i) as [Hsame|(Hin & Hnone & t & Ht & Hev)].
           ++ left. by rewrite Hsame, lookup_insert_ne.
           ++ right. rewrite lookup_insert_ne in Hnone by done.
              split; [by right|]. split; [done|].
              exists t. split; [done|]. right. by right.
      * intros i Hin Hnone. destruct (decide (i = r)) as [->|Hne]; [done|].
        apply elem_of_cons in Hin as [?|Hin]; [done|].
        destruct (Hall i Hin) as (t & Ht & Hev).
        { by rewrite lookup_insert_ne. }
        exists t. split; [done|]. right. by right.
      * intros i t [[=]|[[= -> ->]|Hi]%elem_of_cons]%elem_of_cons.
        -- split; [left|]. split; done.
        -- destruct (Hsound i t Hi) as (Hin & Hnone & Ht).
           destruct (decide (i = r)) as [->|Hne].
           ++ by rewrite lookup_insert_eq in Hnone.
           ++ rewrite lookup_insert_ne in Hnone by done.
              split; [by right|]. split; done.
    + specialize (IH tick attrs).
      destruct (Search.index_loop clock tick rest attrs) as [events attrs'].
      destruct IH as (Hframe & Hall & Hsound). split; [|split].
      * intros i. destruct (Hframe i) as [?|(? & ? & ?)]; [by left|].
        right. split; [by right | done].
      * intros i [->|Hin]%elem_of_cons Hnone; [congruence | by apply Hall].
      * intros i t Hi. destruct (Hsound i t Hi) as (? & ? & ?).
        split; [by right | done].
Qed.

Lemma index_loop_done clock instances : ∀ tick attrs,
  (∀ i, i ∈ instances → Search.needs_index attrs i = false) →
  Search.index_loop clock tick instances attrs = ([], attrs).
Proof.
  induction instances as [|r rest IH]; intros tick attrs Hdone; simpl;
    [done|].
  rewrite (Hdone r) by left. apply IH. intros i Hi. apply Hdone. by right.
Qed.

Lemma indexed_elem events i :
  i ∈ Search.indexed events ↔ ∃ t, Search.IndexItem i t ∈ events.
Proof.
  unfold Search.indexed. rewrite list_elem_of_omap. split.
  - intros ([] & Hin & [= <-]). eauto.
  - intros (t & Hin). by exists (Search.IndexItem i t).
Qed.

(** No instance is handed to [index_item] twice, also when it occurs twice
    among the instances: the second time it is found stamped. *)
Lemma index_loop_once clock instances : ∀ tick attrs,
  NoDup (Search.indexed (Search.index_loop clock tick instances attrs).1).
Proof.
  induction instances as [|r rest IH]; intros tick attrs; simpl.
  - apply NoDup_nil_2.
  - destruct (Search.needs_index attrs r); [|apply IH].
    specialize (IH (Datatypes.S tick) (<[r := Some (clock tick)]> attrs)).
    pose proof (index_loop_spec clock rest (Datatypes.S tick)
                  (<[r := Some (clock tick)]> attrs)) as Hspec.
    destruct (Search.index_loop clock (Datatypes.S tick) rest
                (<[r := Some (clock tick)]> attrs)) as [events attrs'].
    destruct Hspec as (_ & _ & Hsound). simpl in *.
    apply NoDup_cons. split; [|done].
    intros (t & Hev)%indexed_elem.
    destruct (Hsound r t Hev) as (_ & Hnone & _).
    by rewrite lookup_insert_eq in Hnone.
Qed.

(** X29: the update after a commit indexes exactly the instances whose
    [last_indexed] attribute is there and [None], each once: no instance is
    handed to [index_item] twice, also when it occurs twice among the
    instances.  Each is indexed after stamping it with the time read for
    it; instances without the attribute, or already stamped, are passed
    over, and the attributes of all other objects are left as they were.
    Afterwards no instance is left to index: running the update again opens
    and closes the session and indexes nothing. *)
Theorem index_update_idempotent clock clock' instances attrs :
  let '(events, attrs') := Search.index clock instances attrs in
  (∀ i t, Search.IndexItem i t ∈ events ↔
          i ∈ instances ∧ attrs !! i = Some None ∧
          attrs' !! i = Some (Some t)) ∧
  (∀ i, attrs !! i ≠ Some None ∨ i ∉ instances → attrs' !! i = attrs !! i) ∧
  Search.index clock' instances attrs'
    = ([Search.Begin "Update search indexes"; Search.End_], attrs') ∧
  NoDup (Search.indexed events) ∧
  (∀ i, i ∈ Search.indexed events ↔ i ∈ instances ∧ attrs !! i = Some None).
Proof.
  unfold Search.index.
  pose proof (index_loop_spec clock instances 0 attrs) as Hspec.
  pose proof (index_loop_once clock instances 0 attrs) as Honce.
  destruct (Search.index_loop clock 0 instances attrs) as [events attrs'].
  destruct Hspec as (Hframe & Hall & Hsound). simpl in Honce.
  assert (Hindexed :
    Search.indexed (Search.Begin "Update search indexes"
                      :: events ++ [Search.End_])
      = Search.indexed events).
  { unfold Search.indexed. simpl. rewrite omap_app. simpl.
    by rewrite app_nil_r. }
  split; [|split; [|split; [|split]]].
  - intros i t. split.
    + intros [[=]|Hi]%elem_of_cons.
      apply elem_of_app in Hi as [Hi|[[=]|Hi%elem_of_nil]%elem_of_cons];
        [by apply Hsound | done].
    + intros (Hin & Hnone & Ht). destruct (Hall i Hin Hnone) as (t' & Ht' & Hev).
      rewrite Ht in Ht'. injection Ht' as <-.
      right. apply elem_of_app. by left.
  - intros i Hi. destruct (Hframe i) as [?|(Hin & Hnone & _)]; [done|].
    by destruct Hi.
  - rewrite index_loop_done; [done|].
    intros i Hin. unfold Search.needs_index.
    destruct (Hframe i) as [Hsame|(_ & _ & t & -> & _)]; [|done].
    rewrite Hsame. destruct (attrs !! i) as [[t|]|] eqn:Hi; try done.
    destruct (Hall i Hin Hi) as (t & Ht & _). congruence.
  - by rewrite Hindexed.
  - intros i. rewrite Hindexed, indexed_elem. split.
    + intros (t & Hev). by destruct (Hsound i t Hev) as (? & ? & _).
    + intros [Hin Hnone]. destruct (Hall i Hin Hnone) as (t & _ & Hev). eauto.
Qed.

(** The update handler refuses to run without a session, whatever the
    signal; after a delete without a sender it does nothing at all; after a
    delete with a sender it removes the index entries of the instances in
    one session and leaves the instances alone; any other signal, or none,
    runs the index update. *)
Lemma update_dispatch clock instances attrs sig sender model :
  Search.update clock instances attrs None sig sender
    = Store.Throw Search.no_session ∧
  Search.update clock instances attrs (Some tt) (Some Search.post_delete) None
    = Store.Return ([], attrs) ∧
  Search.update clock instances attrs (Some tt) (Some Search.post_delete)
    (Some model)
    = Store.Return ([Search.Begin "Remove search indexes";
                     Search.RemoveItem model instances; Search.End_],
                    attrs) ∧
  Search.update clock instances attrs (Some tt) (Some Search.post_commit)
    sender
    = Store.Return (Search.index clock instances attrs) ∧
  Search.update clock instances attrs (Some tt) None sender
    = Store.Return (Search.index clock instances attrs).
Proof. repeat split. Qed.

End UpdateFacts.

Section ProcessorItemFacts.

(** Induction over an item and the items its fields refer to. *)
Lemma item_induction (P : Search.item → Prop) :
  (∀ related fields,
     Forall (fun fv : Search.fieldinfo * option Search.item =>
               match snd fv with Some child => P child | None => True end)
       fields →
     P (Search.Item related fields)) →
  ∀ it, P it.
Proof.
  intros Hstep. fix IH 1. intros [related fields]. apply Hstep.
  induction fields as [|[field [child|]] fields IHfields];
    constructor; simpl; auto.
Qed.

Lemma truthy_text_elem value s :
  s ∈ Search.truthy_text value ↔ value = Some s ∧ s ≠ EmptyString.
Proof.
  destruct value as [[|c w]|]; simpl.
  - split; [by intros ?%elem_of_nil | by intros [[= <-] ?]].
  - rewrite list_elem_of_singleton. split; [by intros -> | by intros [[= ->] _]].
  - split; [by intros ?%elem_of_nil | by intros [? _]].
Qed.

(** X30: [field_iterator] yields exactly the non-empty texts of the visible
    text fields of the item and, for each visible field that is not a text
    field, is named in [_index_related] and refers to an object, whatever
    the iterator yields for that object, to any depth; hidden fields yield
    nothing.  No yielded text is empty. *)
Theorem field_iterator_sources related fields s :
  (s ∈ Search.field_iterator (Search.Item related fields) ↔
   ∃ field value,
     (field, value) ∈ fields ∧ Search.hidden field = false ∧
     ((Search.type field = "text" ∧ Search.text field = Some s ∧
       s ≠ EmptyString) ∨
      (Search.type field ≠ "text" ∧ Search.name field ∈ related ∧
       ∃ child, value = Some child ∧ s ∈ Search.field_iterator child))) ∧
  (∀ it, Forall (fun w => w ≠ EmptyString) (Search.field_iterator it)).
Proof.
  assert (Hone : ∀ related fields s,
    s ∈ Search.field_iterator (Search.Item related fields) ↔
    ∃ field value,
      (field, value) ∈ fields ∧ Search.hidden field = false ∧
      ((Search.type field = "text" ∧ Search.text field = Some s ∧
        s ≠ EmptyString) ∨
       (Search.type field ≠ "text" ∧ Search.name field ∈ related ∧
        ∃ child, value = Some child ∧ s ∈ Search.field_iterator child))).
  { clear. intros related fields s. simpl. rewrite list_elem_of_In, in_flat_map.
    split.
    - intros ([field value] & Hin%list_elem_of_In & Hs%list_elem_of_In).
      exists field, value. split; [done|].
      destruct (Search.hidden field); [by apply elem_of_nil in Hs|].
      split; [done|].
      destruct (String.eqb (Search.type field) "text") eqn:Htype.
      + left. apply String.eqb_eq in Htype.
        apply truthy_text_elem in Hs as [? ?]. done.
      + right. apply String.eqb_neq in Htype.
        destruct (bool_decide (Search.name field ∈ related)) eqn:Hrel;
          [|by apply elem_of_nil in Hs].
        apply bool_decide_eq_true in Hrel.
        destruct value as [child|]; [|by apply elem_of_nil in Hs].
        repeat split; try done. by exists child.
    - intros (field & value & Hin & Hvisible & Hcase).
      exists (field, value). split; [by apply list_elem_of_In|].
      apply list_elem_of_In. rewrite Hvisible.
      destruct Hcase as [(Htype & Htext & Hs)|(Htype & Hrel & child & -> & Hs)].
      + rewrite Htype. simpl. by apply truthy_text_elem.
      + apply String.eqb_neq in Htype. rewrite Htype.
        by rewrite bool_decide_eq_true_2. }
  split; [apply Hone|].
  apply (item_induction (fun it =>
           Forall (fun w => w ≠ EmptyString) (Search.field_iterator it))).
  intros related' fields' IH. apply Forall_forall. intros w Hw.
  apply Hone in Hw as (field & value & Hin & _ & Hcase).
  destruct Hcase as [(_ & _ & Hne)|(_ & _ & child & -> & Hw)]; [done|].
  rewrite Forall_forall in IH. specialize (IH _ Hin). simpl in IH.
  rewrite Forall_forall in IH. by apply IH.
Qed.

End ProcessorItemFacts.

(** ** The further properties on concrete instances *)

Section MoreScenarios.
Import Memory.

Lemma aggregate_compiles_all_witness :
  let self := Query.Manager_filter NumericData [] in
  let items := [("pv", pv 2); ("id__in", PInt 4)] in
  ∃ d,
    Query.aggregate self (Some items) false = Ok (false, Query.Mapping d) ∧
    (∀ k, k ∉ map fst items → dict_get k d = None) ∧
    (∀ name value, (name, value) ∈ items →
       ∃ field value',
         Query.resolve NumericData name value false
           = Ok (field, value', false) ∧
         dict_get name d = Some value').
Proof.
  assert (Hplain : Forall (fun kv => Query.compiles_plain NumericData kv = true)
                     [("pv", pv 2); ("id__in", PInt 4)])
    by (repeat constructor).
  assert (Hdistinct : NoDup (map fst [("pv", pv 2); ("id__in", PInt 4)])).
  { simpl. apply NoDup_cons. split; [|apply NoDup_singleton].
    by intros [=]%list_elem_of_singleton. }
  exact (aggregate_compiles_all (Query.Manager_filter NumericData []) false
           [("pv", pv 2); ("id__in", PInt 4)] Hplain Hdistinct).
Defined.

Lemma aggregate_first_error_witness :
  Query.aggregate (Query.Manager_filter NumericData [])
    (Some ([("pv", pv 2)] ++ ("note", PStr "x") :: [("bogus", PInt 1)])) true
  = Raise (Query.not_an_index "note").
Proof.
  assert (Hplain : Forall (fun kv => Query.compiles_plain NumericData kv = true)
                     [("pv", pv 2)]) by (repeat constructor).
  assert (Hbad :
    Query.resolve NumericData "note" (PStr "x") false
      = Raise (Query.not_an_index "note") ∨
    ∃ field value',
      Query.resolve NumericData "note" (PStr "x") false
        = Ok (field, value', false) ∧
      Query.index field = false ∧
      Query.not_an_index "note" = Query.not_an_index "note").
  { right. by exists plain_field, (PStr "x"). }
  exact (aggregate_first_error (Query.Manager_filter NumericData []) true
           [("pv", pv 2)] [("bogus", PInt 1)] "note" (PStr "x")
           (Query.not_an_index "note") Hplain Hbad).
Defined.

Lemma unwind_runs_once_witness :
  let self' :=
    Query.set_seq (Query.set_qset (Query.Manager_all NumericData) Query.QAll)
      [] in
  Results._unwind empty_db self'
    [Query.CallQuery (Query.Mapping []) None None; Query.CallTableItems;
     Query.CallTableSize]
  = (Ok (self', []),
     [Query.CallQuery (Query.Mapping []) None None; Query.CallTableItems;
      Query.CallTableSize; Query.CallTableSize]).
Proof.
  exact (unwind_runs_once empty_db (Query.Manager_all NumericData) []
           (or_introl eq_refl)).
Defined.

Lemma delete_counts_instances_witness :
  ∃ db', Results.delete StoreFixtures.forget (Query.Manager_all NumericData)
           numeric_db []
         = (Ok (Query.set_seq
                  (Query.set_qset (Query.Manager_all NumericData) Query.QAll)
                  (map Query.model (objects numeric_db)), 5%Z),
            db',
            [Query.CallQuery (Query.Mapping []) None None;
             Query.CallTableItems]).
Proof.
  assert (Hone : ∀ el db, (StoreFixtures.forget el db).1 = Ok 1%Z) by done.
  exact (delete_counts_instances StoreFixtures.forget numeric_db
           (Query.Manager_all NumericData) [] Hone).
Defined.

Lemma strokes_length k : String.length (StoreFixtures.strokes k) = k.
Proof. induction k as [|k IH]; simpl; [done | by rewrite IH]. Qed.

Lemma stroke_pickler_restores_integers m :
  Store.loads (Store.dumps (Store.VInt m)) = Store.VInt m ∧
  Store.dumps (Store.VInt m) ≠ EmptyString.
Proof.
  split; [|simpl; by destruct (m <? 0)%Z].
  simpl. destruct (m <? 0)%Z eqn:Hm; simpl; rewrite strokes_length; f_equal.
  - apply Z.ltb_lt in Hm. lia.
  - apply Z.ltb_ge in Hm. lia.
Qed.

Lemma map_backend_reads_what_it_wrote id raw t (s : gmap string (string * Z)) :
  ∃ ack s', Store._set id raw t s = (Ok ack, s') ∧
            Store._get id s' = Ok (Some raw).
Proof.
  eexists _, _. split; [reflexivity|]. simpl. by rewrite lookup_insert_eq.
Qed.

Lemma set_get_round_trip_witness :
  Store.get "name" Store.VNone (<["name" := ("sada", 0%Z)]> StoreFixtures.hits)
    = Ok (Store.VStr "ada").
Proof.
  assert (Hlaw : ∀ id raw t (s : gmap string (string * Z)) ack s',
    Store._set id raw t s = (Ok ack, s') → Store._get id s' = Ok (Some raw)).
  { intros id raw t s ack s' [= _ <-]. simpl. by rewrite lookup_insert_eq. }
  assert (Hraw : Store.dumps (Store.VStr "ada") ≠ EmptyString) by done.
  exact (set_get_round_trip "name" (Store.VStr "ada") Store.VNone None
           StoreFixtures.hits tt _ Hlaw eq_refl Hraw eq_refl).
Defined.

Lemma incr_writes_sum_witness :
  (∀ n, Store.loads "+111" = Store.VInt n →
     Store.incr "hits" 2 StoreFixtures.hits =
       match Store._set "hits" (Store.dumps (Store.VInt (n + 2))) 0
               StoreFixtures.hits with
       | (Ok _, s') => (Store.Return (Store.VInt (n + 2)), s')
       | (Raise e, s') => (Store.Throw (Store.Other e), s')
       end) ∧
  (∀ x, Store.loads "+111" = Store.VStr x →
     Store.incr "hits" 2 StoreFixtures.hits
       = (Store.Throw (Store.Other Store.unsupported_operand),
          StoreFixtures.hits)).
Proof.
  assert (Hraw : "+111" ≠ EmptyString) by done.
  exact (incr_writes_sum "hits" 2 StoreFixtures.hits "+111" eq_refl Hraw).
Defined.

Lemma incr_decr_round_trip_witness :
  ∃ s1 s2,
    Store.incr "hits" 5 StoreFixtures.hits
      = (Store.Return (Store.VInt (3 + 5)), s1) ∧
    Store.decr "hits" 5 s1 = (Store.Return (Store.VInt 3), s2) ∧
    Store.get "hits" Store.VNone s2 = Ok (Store.VInt 3).
Proof.
  exact (incr_decr_round_trip "hits" 5 3 StoreFixtures.hits
           map_backend_reads_what_it_wrote stroke_pickler_restores_integers
           eq_refl).
Defined.

Lemma get_many_gives_present_keys_witness :
  ∃ d, Store.get_many ["hits"; "blank"; "gone"] StoreFixtures.hits = Ok d ∧
       ∀ k, dict_get k d =
              if decide (k ∈ ["hits"; "blank"; "gone"]) then
                match Store.get k Store.VNone StoreFixtures.hits with
                | Ok Store.VNone | Raise _ => None
                | Ok v => Some v
                end
              else None.
Proof.
  assert (Hreads : ∀ k, k ∈ ["hits"; "blank"; "gone"] →
    ∃ v, Store.get k Store.VNone StoreFixtures.hits = Ok v).
  { intros k _. unfold Store.get. simpl.
    destruct (StoreFixtures.hits !! k) as [[[|c raw] t]|]; simpl; eauto. }
  exact (get_many_gives_present_keys ["hits"; "blank"; "gone"]
           StoreFixtures.hits Hreads).
Defined.

(** The facade on the concrete backend: a key stored with an empty string
    reads as absent, and [get_many] leaves it out. *)
Example blank_key_reads_as_absent :
  Store.has_key "blank" StoreFixtures.hits = Ok false ∧
  Store.get_many ["hits"; "blank"; "gone"] StoreFixtures.hits
    = Ok [("hits", Store.VInt 3)].
Proof. split; vm_compute; reflexivity. Qed.

End MoreScenarios.
